(** * PlayScript validator (validate.py): a shallow embedding and its properties

    The development follows [validate.py]: parsed YAML documents are a small
    tree type, the validator object is a record that every method threads
    through a state-and-exception monad, and the two phases of
    [validate_all] are folds over the enumerated files.

    Conventions of the embedding:
    - the YAML parser and the file system are outside the program; a file is
      given by its path and by the outcome of reading and parsing it;
    - scalars are null, booleans, integers and strings (floats, timestamps
      and binary scalars are not modelled); a string holds the UTF-8
      encoding of the text, and iterating it yields its code points;
    - the [message] text of a diagnostic is not modelled: only [file_path],
      [error_type], [line_number] and [severity] are kept;
    - printing ([_print_results] and the progress lines) has no effect on
      the validator object and is left out. *)

From stdpp Require Import gmap strings list.
From Stdlib Require Import ZArith Ascii String.

Local Open Scope string_scope.
Local Open Scope list_scope.
Local Open Scope Z_scope.

(** ** Python values *)

(** Hashable scalars up to Python equality: [True == 1] and [False == 0]
    share a hash, so a boolean and the integer it equals are one key. *)
Inductive key : Type :=
  | KNone
  | KInt (z : Z)
  | KStr (s : string).

#[local] Set Warnings "-register-all".

(** The generic tree [yaml.safe_load] returns. A mapping keeps the insertion
    order of its keys. *)
Inductive yaml : Type :=
  | YNull
  | YBool (b : bool)
  | YInt (z : Z)
  | YStr (s : string)
  | YList (l : list yaml)
  | YMap (d : list (key * yaml)).

Abbreviation dict := (list (key * yaml)).

#[global] Instance key_eq_dec : EqDecision key.
Proof. solve_decision. Defined.

Definition key_encode (k : key) : unit + (Z + string) :=
  match k with
  | KNone => inl tt
  | KInt z => inr (inl z)
  | KStr s => inr (inr s)
  end.

Definition key_decode (x : unit + (Z + string)) : key :=
  match x with
  | inl _ => KNone
  | inr (inl z) => KInt z
  | inr (inr s) => KStr s
  end.

#[global] Instance key_countable : Countable key.
Proof.
  refine (inj_countable' key_encode key_decode _).
  intros k; destruct k; reflexivity.
Defined.

(** [bool(v)] *)
Definition truthy (v : yaml) : bool :=
  match v with
  | YNull => false
  | YBool b => b
  | YInt z => negb (z =? 0)
  | YStr s => negb (String.eqb s "")
  | YList l => match l with [] => false | _ => true end
  | YMap d => match d with [] => false | _ => true end
  end.

(** [hash(v)]: lists and mappings are unhashable. *)
Definition hash_key (v : yaml) : option key :=
  match v with
  | YNull => Some KNone
  | YBool b => Some (KInt (if b then 1 else 0))
  | YInt z => Some (KInt z)
  | YStr s => Some (KStr s)
  | YList _ | YMap _ => None
  end.

(** The value a key stands for when a mapping is iterated. *)
Definition key_value (k : key) : yaml :=
  match k with
  | KNone => YNull
  | KInt z => YInt z
  | KStr s => YStr s
  end.

(** [v == s] for a string literal [s] *)
Definition eq_str (v : yaml) (s : string) : bool :=
  match v with
  | YStr s' => String.eqb s' s
  | _ => false
  end.

(** [v in [s1, s2, ...]] for a list of string literals *)
Definition in_str_list (v : yaml) (l : list string) : bool :=
  existsb (eq_str v) l.

Definition is_dict (v : yaml) : bool :=
  match v with YMap _ => true | _ => false end.

Definition is_list (v : yaml) : bool :=
  match v with YList _ => true | _ => false end.

Fixpoint dict_lookup (d : dict) (k : key) : option yaml :=
  match d with
  | [] => None
  | (k', v) :: rest => if decide (k' = k) then Some v else dict_lookup rest k
  end.

(** [name in d] *)
Definition dict_has (d : dict) (name : string) : bool :=
  match dict_lookup d (KStr name) with Some _ => true | None => false end.

(** [d.get(name, dflt)] *)
Definition dict_get_default (d : dict) (name : string) (dflt : yaml) : yaml :=
  match dict_lookup d (KStr name) with Some v => v | None => dflt end.

(** [d.get(name)] *)
Definition dict_get (d : dict) (name : string) : yaml :=
  dict_get_default d name YNull.

(** ** String helpers *)

Definition dot : ascii := "."%char.

(** [s.split('.', 1)] when ['.' in s]: the text before the first dot and the
    text after it. *)
Fixpoint split_dot (s : string) : option (string * string) :=
  match s with
  | EmptyString => None
  | String c rest =>
      if Ascii.eqb c dot then Some (EmptyString, rest)
      else match split_dot rest with
           | Some (a, b) => Some (String c a, b)
           | None => None
           end
  end.

(** ['.' in s] for a string [s] *)
Definition has_dot (s : string) : bool :=
  match split_dot s with Some _ => true | None => false end.

(** A string holds the UTF-8 encoding of the text. A byte of the form
    [10xxxxxx] continues the code point that the bytes before it started. *)
Definition is_continuation (c : ascii) : bool :=
  match c with
  | Ascii _ _ _ _ _ _ b6 b7 => b7 && negb b6
  end.

(** The code points of [s] from its first leading byte on, and before them
    the continuation bytes [s] starts with. *)
Fixpoint code_points (s : string) : string * list yaml :=
  match s with
  | EmptyString => (EmptyString, [])
  | String c rest =>
      let '(continuation, points) := code_points rest in
      if is_continuation c then (String c continuation, points)
      else (EmptyString, YStr (String c continuation) :: points)
  end.

(** The characters of a string, as the one-character strings that iterating a
    Python string yields: one per code point. *)
Definition chars (s : string) : list yaml :=
  match code_points s with
  | (EmptyString, points) => points
  | (stray, points) => YStr stray :: points
  end.

(** ** Diagnostics and the validator object *)

Inductive severity : Type := SevError | SevWarning | SevInfo.

#[global] Instance severity_eq_dec : EqDecision severity.
Proof. solve_decision. Defined.

Record ValidationError : Type := mkValidationError {
  file_path : string;
  error_type : string;
  line_number : option Z;
  severity_of : severity
}.

#[global] Instance ValidationError_eq_dec : EqDecision ValidationError.
Proof. solve_decision. Defined.

(** [ValidationError(path, ty, msg)]: [line_number] and [severity] take
    their defaults. *)
Definition error_diag (p ty : string) : ValidationError :=
  mkValidationError p ty None SevError.

(** [ValidationError(path, ty, msg, severity="warning")] *)
Definition warning_diag (p ty : string) : ValidationError :=
  mkValidationError p ty None SevWarning.

Record PlayScriptValidator : Type := mkValidator {
  errors : list ValidationError;
  warnings : list ValidationError;
  schema_objects : gset key;
  schema_fields : gmap key (gset key);
  action_names : gset key;
  integration_names : gset key;
  all_files : list (string * dict)
}.

(** [PlayScriptValidator.__init__] *)
Definition init : PlayScriptValidator :=
  mkValidator [] [] ∅ ∅ ∅ ∅ [].

(** ** The state-and-exception monad of the methods

    A method reads and updates the validator object and either returns or
    raises; what it did to the object before raising stays done. *)

Inductive exn : Type :=
  TypeError | AttributeError | KeyError | OSError | ValueError.

Inductive result (A : Type) : Type :=
  | Ok (a : A)
  | Raise (e : exn).
Arguments Ok {A} a.
Arguments Raise {A} e.

Definition M (A : Type) : Type :=
  PlayScriptValidator -> result A * PlayScriptValidator.

Definition ret {A} (a : A) : M A := fun st => (Ok a, st).

Definition raise {A} (e : exn) : M A := fun st => (Raise e, st).

Definition bind {A B} (m : M A) (k : A -> M B) : M B :=
  fun st =>
    match m st with
    | (Ok a, st') => k a st'
    | (Raise e, st') => (Raise e, st')
    end.

(** [try: m except Exception: h] *)
Definition try_except (m : M unit) (h : exn -> M unit) : M unit :=
  fun st =>
    match m st with
    | (Ok a, st') => (Ok a, st')
    | (Raise e, st') => h e st'
    end.

Definition get_state : M PlayScriptValidator := fun st => (Ok st, st).

Definition modify (f : PlayScriptValidator -> PlayScriptValidator) : M unit :=
  fun st => (Ok tt, f st).

Notation "x <- m ;; k" := (bind m (fun x => k))
  (at level 100, m at next level, right associativity).
Notation "m ;; k" := (bind m (fun _ => k))
  (at level 100, right associativity).

(** [for x in l: body(x)] over an already enumerated list *)
Fixpoint for_each {A} (l : list A) (body : A -> M unit) : M unit :=
  match l with
  | [] => ret tt
  | x :: rest => body x ;; for_each rest body
  end.

(** [if c: m] *)
Definition when (c : bool) (m : M unit) : M unit :=
  if c then m else ret tt.

(** The hash of a value that is put into, or looked up in, a set or a
    mapping: [TypeError: unhashable type] for lists and mappings. *)
Definition hash (v : yaml) : M key :=
  match hash_key v with
  | Some k => ret k
  | None => raise TypeError
  end.

(** [iter(v)]: the elements of a list, the characters of a string, the keys
    of a mapping; other values are not iterable. *)
Definition py_iter (v : yaml) : M (list yaml) :=
  match v with
  | YList l => ret l
  | YStr s => ret (chars s)
  | YMap d => ret (map (fun kv => key_value (fst kv)) d)
  | YNull | YBool _ | YInt _ => raise TypeError
  end.

(** ['.' in v] *)
Definition contains_dot (v : yaml) : M bool :=
  match v with
  | YStr s => ret (has_dot s)
  | YList l => ret (existsb (fun x => eq_str x ".") l)
  | YMap d => ret (dict_has d ".")
  | YNull | YBool _ | YInt _ => raise TypeError
  end.

(** [v.split('.', 1)] unpacked into two names, reached only when
    ['.' in v] holds; only strings have [split]. *)
Definition split_qualified (v : yaml) : M (string * string) :=
  match v with
  | YStr s =>
      match split_dot s with
      | Some ab => ret ab
      | None => raise TypeError
      end
  | _ => raise AttributeError
  end.

(** [v.startswith(prefix)] *)
Definition startswith (v : yaml) (prefix : string) : M bool :=
  match v with
  | YStr s => ret (String.prefix prefix s)
  | _ => raise AttributeError
  end.

(** *** Updates of the validator object *)

Definition set_errors (es : list ValidationError) (st : PlayScriptValidator) :=
  mkValidator es (warnings st) (schema_objects st) (schema_fields st)
    (action_names st) (integration_names st) (all_files st).

Definition set_warnings (ws : list ValidationError) (st : PlayScriptValidator) :=
  mkValidator (errors st) ws (schema_objects st) (schema_fields st)
    (action_names st) (integration_names st) (all_files st).

Definition set_schema_objects (s : gset key) (st : PlayScriptValidator) :=
  mkValidator (errors st) (warnings st) s (schema_fields st)
    (action_names st) (integration_names st) (all_files st).

Definition set_schema_fields (m : gmap key (gset key)) (st : PlayScriptValidator) :=
  mkValidator (errors st) (warnings st) (schema_objects st) m
    (action_names st) (integration_names st) (all_files st).

Definition set_action_names (s : gset key) (st : PlayScriptValidator) :=
  mkValidator (errors st) (warnings st) (schema_objects st) (schema_fields st)
    s (integration_names st) (all_files st).

Definition set_integration_names (s : gset key) (st : PlayScriptValidator) :=
  mkValidator (errors st) (warnings st) (schema_objects st) (schema_fields st)
    (action_names st) s (all_files st).

Definition set_all_files (fs : list (string * dict)) (st : PlayScriptValidator) :=
  mkValidator (errors st) (warnings st) (schema_objects st) (schema_fields st)
    (action_names st) (integration_names st) fs.

(** [self.errors.append(ValidationError(p, ty, ...))] *)
Definition add_error (p ty : string) : M unit :=
  modify (fun st => set_errors (errors st ++ [error_diag p ty]) st).

(** [self.warnings.append(ValidationError(p, ty, ..., severity="warning"))] *)
Definition add_warning (p ty : string) : M unit :=
  modify (fun st => set_warnings (warnings st ++ [warning_diag p ty]) st).

(** [d[p] = data] on an insertion-ordered dict: a known key keeps its place. *)
Fixpoint store (p : string) (data : dict) (fs : list (string * dict)) :
    list (string * dict) :=
  match fs with
  | [] => [(p, data)]
  | (q, old) :: rest =>
      if String.eqb q p then (q, data) :: rest else (q, old) :: store p data rest
  end.

(** *** Lookups in the symbol table *)

(** [v in self.action_names] *)
Definition in_action_names (v : yaml) : M bool :=
  k <- hash v ;;
  st <- get_state ;;
  ret (bool_decide (k ∈ action_names st)).

(** [v in self.schema_objects] *)
Definition in_schema_objects (v : yaml) : M bool :=
  k <- hash v ;;
  st <- get_state ;;
  ret (bool_decide (k ∈ schema_objects st)).

(** [v in self.integration_names] *)
Definition in_integration_names (v : yaml) : M bool :=
  k <- hash v ;;
  st <- get_state ;;
  ret (bool_decide (k ∈ integration_names st)).

(** [obj in self.schema_fields and field not in self.schema_fields[obj]]:
    the right operand is evaluated only when the left one holds. *)
Definition field_missing (obj field : yaml) : M bool :=
  ko <- hash obj ;;
  st <- get_state ;;
  match schema_fields st !! ko with
  | Some known =>
      kf <- hash field ;;
      ret (negb (bool_decide (kf ∈ known)))
  | None => ret false
  end.

(** ** Phase 1: per-type syntax validators *)

(** [_check_required_fields] *)
Definition _check_required_fields (p : string) (data : dict)
    (required_fields : list string) : M unit :=
  for_each required_fields (fun field =>
    when (negb (dict_has data field)) (add_error p "missing_required_field")).

Definition valid_implementations : list string :=
  ["create_record"; "integration_call"; "python"; "api_call"].

(** [_validate_action] *)
Definition _validate_action (p : string) (data : dict) : M unit :=
  _check_required_fields p data ["name"; "description"; "implementation"] ;;
  let name := dict_get data "name" in
  when (truthy name)
    (k <- hash name ;;
     modify (fun st => set_action_names ({[k]} ∪ action_names st) st)) ;;
  let implementation := dict_get data "implementation" in
  when (truthy implementation
        && negb (in_str_list implementation valid_implementations))
    (add_error p "invalid_implementation") ;;
  when (dict_has data "input_schema"
        && negb (is_dict (dict_get data "input_schema")))
    (add_error p "invalid_schema") ;;
  when (dict_has data "output_schema"
        && negb (is_dict (dict_get data "output_schema")))
    (add_error p "invalid_schema") ;;
  let tags := dict_get_default data "tags" (YList []) in
  when (truthy tags && negb (is_list tags)) (add_error p "invalid_tags").

Definition valid_types : list string :=
  ["string"; "email"; "datetime"; "integer"; "decimal"; "boolean";
   "textarea"; "picklist.excl"; "picklist.multi"].

(** [self.schema_fields[object_name].add(field_name)] *)
Definition add_schema_field (object_name : yaml) (kf : key) : M unit :=
  ko <- hash object_name ;;
  st <- get_state ;;
  match schema_fields st !! ko with
  | Some known =>
      modify (set_schema_fields (<[ko := {[kf]} ∪ known]> (schema_fields st)))
  | None => raise KeyError
  end.

(** The body of the loop over [fields] in [_validate_schema], for one entry;
    it returns the local set [field_names] as the entry leaves it. *)
Definition schema_field_step (p : string) (object_name field : yaml)
    (field_names : gset key) : M (gset key) :=
  match field with
  | YMap fd =>
      let field_name := dict_get fd "name" in
      if negb (truthy field_name)
      then add_error p "missing_field_name" ;; ret field_names
      else
        kf <- hash field_name ;;
        when (bool_decide (kf ∈ field_names)) (add_error p "duplicate_field") ;;
        let field_names' := {[kf]} ∪ field_names in
        when (truthy object_name) (add_schema_field object_name kf) ;;
        let field_type := dict_get fd "type" in
        when (truthy field_type && negb (in_str_list field_type valid_types))
          (add_warning p "unknown_field_type") ;;
        when (truthy field_type)
          (is_picklist <- startswith field_type "picklist" ;;
           when (is_picklist && negb (dict_has fd "values"))
             (add_error p "missing_picklist_values")) ;;
        ret field_names'
  | _ => add_error p "invalid_field" ;; ret field_names
  end.

(** [for i, field in enumerate(fields): ...] of [_validate_schema] *)
Fixpoint schema_fields_loop (p : string) (object_name : yaml)
    (fields : list yaml) (field_names : gset key) : M unit :=
  match fields with
  | [] => ret tt
  | field :: rest =>
      field_names' <- schema_field_step p object_name field field_names ;;
      schema_fields_loop p object_name rest field_names'
  end.

(** [_validate_schema] *)
Definition _validate_schema (p : string) (data : dict) : M unit :=
  _check_required_fields p data ["object"; "description"; "fields"] ;;
  let object_name := dict_get data "object" in
  when (truthy object_name)
    (ko <- hash object_name ;;
     modify (fun st => set_schema_objects ({[ko]} ∪ schema_objects st) st) ;;
     modify (fun st => set_schema_fields (<[ko := ∅]> (schema_fields st)) st)) ;;
  let fields := dict_get_default data "fields" (YList []) in
  match fields with
  | YList fl => schema_fields_loop p object_name fl ∅
  | _ => add_error p "invalid_fields"
  end.

Definition valid_component_types : list string :=
  ["field_section"; "related_list"; "custom_component"].

(** [_validate_layout] *)
Definition _validate_layout (p : string) (data : dict) : M unit :=
  _check_required_fields p data ["name"; "components"] ;;
  let components := dict_get_default data "components" (YList []) in
  match components with
  | YList cl =>
      for_each cl (fun component =>
        match component with
        | YMap cd =>
            let comp_type := dict_get cd "type" in
            when (truthy comp_type
                  && negb (in_str_list comp_type valid_component_types))
              (add_error p "invalid_component_type")
        | _ => add_error p "invalid_component"
        end)
  | _ => add_error p "invalid_components"
  end.

Definition valid_trigger_types : list string :=
  ["database_event"; "schedule"; "webhook"; "manual"].

(** [_validate_automation] *)
Definition _validate_automation (p : string) (data : dict) : M unit :=
  _check_required_fields p data ["name"; "description"; "trigger"; "action"] ;;
  let trigger := dict_get_default data "trigger" (YMap []) in
  match trigger with
  | YMap td =>
      let trigger_type := dict_get td "type" in
      when (truthy trigger_type
            && negb (in_str_list trigger_type valid_trigger_types))
        (add_error p "invalid_trigger_type")
  | _ => ret tt
  end ;;
  let action := dict_get_default data "action" (YMap []) in
  match action with
  | YMap ad => when (negb (dict_has ad "ref")) (add_error p "missing_action_ref")
  | _ => ret tt
  end.

(** [_validate_integration] *)
Definition _validate_integration (p : string) (data : dict) : M unit :=
  _check_required_fields p data ["name"; "service"; "description"] ;;
  let name := dict_get data "name" in
  when (truthy name)
    (k <- hash name ;;
     modify (fun st => set_integration_names ({[k]} ∪ integration_names st) st)).

(** [_validate_form] *)
Definition _validate_form (p : string) (data : dict) : M unit :=
  _check_required_fields p data ["name"; "title"; "target_object"; "fields"] ;;
  let fields := dict_get_default data "fields" (YList []) in
  when (negb (is_list fields)) (add_error p "invalid_fields").

(** ** The document loader *)

(** What reading and parsing one file gives: [open] or [read] raising, the
    parser raising something that is not a [yaml.YAMLError] (a [ValueError]
    for a date such as [2024-13-45]), the parser raising [yaml.YAMLError],
    or the parsed value. *)
Inductive load_outcome : Type :=
  | ReadError
  | ParserError
  | YamlError
  | Parsed (data : yaml).

Record ps_file : Type := mkFile {
  path : string;
  content : load_outcome
}.

(** The type-specific dispatch of [_validate_file]. *)
Definition validate_typed (p : string) (data : dict) : M unit :=
  let file_type := dict_get data "type" in
  if negb (truthy file_type) then add_error p "missing_type"
  else if eq_str file_type "action" then _validate_action p data
  else if eq_str file_type "schema" then _validate_schema p data
  else if eq_str file_type "layout" then _validate_layout p data
  else if eq_str file_type "automation" then _validate_automation p data
  else if eq_str file_type "integration" then _validate_integration p data
  else if eq_str file_type "form" then _validate_form p data
  else add_warning p "unknown_type".

(** The body of the [try] block of [_validate_file]. *)
Definition validate_file_body (f : ps_file) : M unit :=
  match content f with
  | ReadError => raise OSError
  | ParserError => raise ValueError
  | YamlError => add_error (path f) "yaml_syntax"
  | Parsed (YMap data) =>
      modify (fun st => set_all_files (store (path f) data (all_files st)) st) ;;
      validate_typed (path f) data
  | Parsed _ => add_error (path f) "invalid_format"
  end.

(** [_validate_file] *)
Definition _validate_file (f : ps_file) : M unit :=
  try_except (validate_file_body f) (fun _ => add_error (path f) "file_error").

(** What [target_path] resolves to on the file system: no target (or an
    empty one), a [.ps] file, a directory with the [.ps] files below it, or
    neither. Without a target the files are those below [playbook_dir]. *)
Inductive target : Type :=
  | AllFiles (files : list ps_file)
  | TargetFile (f : ps_file)
  | TargetDir (files : list ps_file)
  | TargetMissing (p : string).

(** The files phase 1 enumerates. *)
Definition target_files (t : target) : list ps_file :=
  match t with
  | AllFiles files | TargetDir files => files
  | TargetFile f => [f]
  | TargetMissing _ => []
  end.

(** [_validate_syntax] *)
Definition _validate_syntax (t : target) : M unit :=
  match t with
  | AllFiles files => for_each files _validate_file
  | TargetFile f => _validate_file f
  | TargetDir files => for_each files _validate_file
  | TargetMissing p => add_error p "file_not_found"
  end.

(** ** Phase 2: the cross-reference resolver *)

(** [_validate_automation_references] *)
Definition _validate_automation_references (p : string) (data : dict) : M unit :=
  let action := dict_get_default data "action" (YMap []) in
  match action with
  | YMap ad =>
      let ref := dict_get ad "ref" in
      when (truthy ref)
        (known <- in_action_names ref ;;
         when (negb known) (add_error p "missing_action_reference"))
  | _ => ret tt
  end.

(** The check of a qualified name shared by [_validate_field_reference] and
    [_validate_form_references]: [obj, field = v.split('.', 1)] and the
    lookup of [field] in [self.schema_fields[obj]]. *)
Definition check_qualified (p : string) (v : yaml) : M unit :=
  parts <- split_qualified v ;;
  let '(obj, field) := parts in
  missing <- field_missing (YStr obj) (YStr field) ;;
  when missing (add_error p "missing_field_reference").

(** [_validate_field_reference] *)
Definition _validate_field_reference (p : string) (object_name field_name : yaml)
    : M unit :=
  dotted <- contains_dot field_name ;;
  if dotted then check_qualified p field_name
  else
    missing <- field_missing object_name field_name ;;
    when missing (add_error p "missing_field_reference").

(** [_validate_layout_references] *)
Definition _validate_layout_references (p : string) (data : dict) : M unit :=
  let layout_name := dict_get data "name" in
  when (truthy layout_name)
    (known <- in_schema_objects layout_name ;;
     when (negb known) (add_warning p "missing_schema_reference")) ;;
  let components := dict_get_default data "components" (YList []) in
  cl <- py_iter components ;;
  for_each cl (fun component =>
    match component with
    | YMap cd =>
        let fields := dict_get_default cd "fields" (YList []) in
        fl <- py_iter fields ;;
        for_each fl (fun field =>
          match field with
          | YStr _ => _validate_field_reference p layout_name field
          | YMap fd =>
              when (dict_has fd "name")
                (_validate_field_reference p layout_name (dict_get fd "name"))
          | _ => ret tt
          end)
    | _ => ret tt
    end).

(** The body of the loop over [fields] in [_validate_form_references]. *)
Definition form_field_step (p : string) (field : yaml) : M unit :=
  match field with
  | YMap fd =>
      when (dict_has fd "maps_to")
        (let maps_to := dict_get fd "maps_to" in
         dotted <- contains_dot maps_to ;;
         when dotted (check_qualified p maps_to))
  | _ => ret tt
  end.

(** [_validate_form_references] *)
Definition _validate_form_references (p : string) (data : dict) : M unit :=
  let target_object := dict_get data "target_object" in
  when (truthy target_object)
    (known <- in_schema_objects target_object ;;
     when (negb known) (add_error p "missing_schema_reference")) ;;
  let fields := dict_get_default data "fields" (YList []) in
  fl <- py_iter fields ;;
  for_each fl (form_field_step p).

(** [_validate_integration_references] *)
Definition _validate_integration_references (p : string) (data : dict) : M unit :=
  let defaults := dict_get_default data "defaults" (YMap []) in
  match defaults with
  | YMap dd =>
      let integration := dict_get dd "integration" in
      when (truthy integration)
        (known <- in_integration_names integration ;;
         when (negb known) (add_error p "missing_integration_reference"))
  | _ => raise AttributeError
  end.

(** The body of the loop of [_validate_cross_file_references]. *)
Definition cross_check (entry : string * dict) : M unit :=
  let '(p, data) := entry in
  let file_type := dict_get data "type" in
  if eq_str file_type "automation" then _validate_automation_references p data
  else if eq_str file_type "layout" then _validate_layout_references p data
  else if eq_str file_type "form" then _validate_form_references p data
  else if eq_str file_type "action"
          && eq_str (dict_get data "implementation") "integration_call"
       then _validate_integration_references p data
  else ret tt.

(** [_validate_cross_file_references] *)
Definition _validate_cross_file_references : M unit :=
  st <- get_state ;;
  for_each (all_files st) cross_check.

(** ** The orchestrator *)

(** [validate_all] *)
Definition validate_all (t : target) (syntax_only cross_file_only : bool)
    : M bool :=
  when (negb cross_file_only) (_validate_syntax t) ;;
  when (negb syntax_only) _validate_cross_file_references ;;
  st <- get_state ;;
  ret (bool_decide (List.length (errors st) = 0%nat)).

(** The exit status of [main]: [sys.exit(0 if success else 1)], and status 1
    when an exception leaves [validate_all]. *)
Definition exit_status (r : result bool) : Z :=
  match r with
  | Ok true => 0
  | Ok false => 1
  | Raise _ => 1
  end.

(** [main] on a fresh validator: the exit status and the validator object
    as the run leaves it. *)
Definition main (t : target) (syntax_only cross_file : bool)
    : Z * PlayScriptValidator :=
  let '(r, st) := validate_all t syntax_only cross_file init in
  (exit_status r, st).

(** * Properties *)

(** ** Diagnostics a computation appends *)

(** The diagnostics of a validator object, errors first. *)
Definition diagnostics (st : PlayScriptValidator) : list ValidationError :=
  errors st ++ warnings st.

(** The number of diagnostics of category [ty] recorded against file [p]. *)
Definition count_diag (p ty : string) (l : list ValidationError) : nat :=
  List.length (filter (fun e => file_path e = p ∧ error_type e = ty) l).

Lemma count_diag_app p ty l1 l2 :
  count_diag p ty (l1 ++ l2) = (count_diag p ty l1 + count_diag p ty l2)%nat.
Proof. unfold count_diag. by rewrite filter_app, length_app. Qed.

Lemma count_diag_zero p ty l :
  Forall (fun e => ¬ (file_path e = p ∧ error_type e = ty)) l ->
  count_diag p ty l = 0%nat.
Proof.
  unfold count_diag. induction 1 as [|e l He _ IH]; [done|].
  by rewrite filter_cons_False.
Qed.

(** ** Relations between the validator before and after a computation *)

Section Keeps.
Context (R : relation PlayScriptValidator) `{!PreOrder R}.

(** Whatever its outcome, [m] takes a validator to one related by [R]. *)
Definition keeps {A} (m : M A) : Prop := forall st, R st (snd (m st)).

Lemma keeps_ret {A} (a : A) : keeps (ret a).
Proof. intros st. simpl. reflexivity. Qed.

Lemma keeps_raise {A} (e : exn) : keeps (@raise A e).
Proof. intros st. simpl. reflexivity. Qed.

Lemma keeps_get_state : keeps get_state.
Proof. intros st. simpl. reflexivity. Qed.

Lemma keeps_modify f : (forall st, R st (f st)) -> keeps (modify f).
Proof. intros Hf st. apply Hf. Qed.

Lemma keeps_bind {A B} (m : M A) (k : A -> M B) :
  keeps m -> (forall a, keeps (k a)) -> keeps (bind m k).
Proof.
  intros Hm Hk st. unfold bind. specialize (Hm st).
  destruct (m st) as [[a|e] st1]; simpl in *; [|done].
  etrans; [exact Hm | apply Hk].
Qed.

Lemma keeps_try_except (m : M unit) (h : exn -> M unit) :
  keeps m -> (forall e, keeps (h e)) -> keeps (try_except m h).
Proof.
  intros Hm Hh st. unfold try_except. specialize (Hm st).
  destruct (m st) as [[a|e] st1]; simpl in *; [done|].
  etrans; [exact Hm | apply Hh].
Qed.

Lemma keeps_when (c : bool) (m : M unit) : keeps m -> keeps (when c m).
Proof. intros Hm. destruct c; [done | apply keeps_ret]. Qed.

Lemma keeps_for_each_in {A} (l : list A) (body : A -> M unit) :
  (forall x, x ∈ l -> keeps (body x)) -> keeps (for_each l body).
Proof.
  induction l as [|x l IH]; intros Hb; simpl; [apply keeps_ret|].
  apply keeps_bind; [apply Hb; left | intros _; apply IH].
  intros y Hy. apply Hb. by right.
Qed.

Lemma keeps_for_each {A} (l : list A) (body : A -> M unit) :
  (forall x, keeps (body x)) -> keeps (for_each l body).
Proof. intros Hb. apply keeps_for_each_in. auto. Qed.
End Keeps.

Lemma keeps_mono (R R' : relation PlayScriptValidator) {A} (m : M A) :
  (forall st st', R st st' -> R' st st') -> keeps R m -> keeps R' m.
Proof. intros HR Hm st. apply HR, Hm. Qed.

(** [same_on f]: the computation leaves the component [f] as it was. *)
Definition same_on {X} (f : PlayScriptValidator -> X) : relation PlayScriptValidator :=
  fun st st' => f st' = f st.

#[global] Instance same_on_preorder {X} (f : PlayScriptValidator -> X) :
  PreOrder (same_on f).
Proof.
  split; [by intros st | intros a b c Hab Hbc]. unfold same_on in *. congruence.
Qed.

(** [appends Pe Pw]: the computation only appends to the two diagnostic
    lists, errors satisfying [Pe] and warnings satisfying [Pw]. *)
Definition appends (Pe Pw : ValidationError -> Prop) : relation PlayScriptValidator :=
  fun st st' =>
    exists es ws,
      errors st' = errors st ++ es ∧ warnings st' = warnings st ++ ws ∧
      Forall Pe es ∧ Forall Pw ws.

#[global] Instance appends_preorder Pe Pw : PreOrder (appends Pe Pw).
Proof.
  split.
  - intros st. exists [], []. by rewrite !app_nil_r.
  - intros a b c (es1 & ws1 & He1 & Hw1 & ? & ?) (es2 & ws2 & He2 & Hw2 & ? & ?).
    exists (es1 ++ es2), (ws1 ++ ws2).
    rewrite He2, He1, Hw2, Hw1, !app_assoc.
    repeat split; try done; by apply Forall_app.
Qed.

Lemma appends_mono (Pe Pw Qe Qw : ValidationError -> Prop) st st' :
  (forall e, Pe e -> Qe e) -> (forall e, Pw e -> Qw e) ->
  appends Pe Pw st st' -> appends Qe Qw st st'.
Proof.
  intros He Hw (es & ws & ? & ? & ? & ?). exists es, ws.
  repeat split; try done; eapply Forall_impl; eauto.
Qed.

Lemma keeps_add_error (Pe Pw : ValidationError -> Prop) p ty :
  Pe (error_diag p ty) -> keeps (appends Pe Pw) (add_error p ty).
Proof.
  intros HP st. exists [error_diag p ty], []. simpl.
  rewrite app_nil_r. repeat split; try done. by constructor.
Qed.

Lemma keeps_add_warning (Pe Pw : ValidationError -> Prop) p ty :
  Pw (warning_diag p ty) -> keeps (appends Pe Pw) (add_warning p ty).
Proof.
  intros HP st. exists [], [warning_diag p ty]. simpl.
  rewrite app_nil_r. repeat split; try done. by constructor.
Qed.

Lemma keeps_appends_modify (Pe Pw : ValidationError -> Prop) f :
  (forall st, errors (f st) = errors st) ->
  (forall st, warnings (f st) = warnings st) ->
  keeps (appends Pe Pw) (modify f).
Proof.
  intros He Hw st. exists [], []. simpl. by rewrite He, Hw, !app_nil_r.
Qed.

(** Structural steps shared by the proofs that a method keeps a relation;
    [leaf] closes the goals about single updates. *)
Ltac keeps_unfold :=
  unfold in_action_names, in_schema_objects, in_integration_names,
    field_missing, add_schema_field, check_qualified, hash, py_iter,
    contains_dot, split_qualified, startswith;
  cbv beta iota zeta.

Ltac keeps_step leaf :=
  lazymatch goal with
  | |- keeps _ (ret _) => apply keeps_ret; try apply _
  | |- keeps _ (raise _) => apply keeps_raise; try apply _
  | |- keeps _ get_state => apply keeps_get_state; try apply _
  | |- keeps _ (bind _ _) => apply keeps_bind; [try apply _ | | intros ?]
  | |- keeps _ (when _ _) => apply keeps_when; [try apply _ |]
  | |- keeps _ (for_each _ _) => apply keeps_for_each; [try apply _ | intros ?]
  | |- keeps _ (try_except _ _) =>
      apply keeps_try_except; [try apply _ | | intros ?]
  | |- keeps _ (if ?b then _ else _) => destruct b
  | |- keeps _ (match ?x with _ => _ end) => destruct x
  | |- keeps _ (let '(_, _) := ?x in _) => destruct x
  | |- _ => leaf
  end.

Ltac keeps_go leaf := keeps_unfold; repeat (keeps_step leaf; keeps_unfold).

(** ** Where each diagnostic comes from *)

(** The categories the per-type validators report, the ones the loader
    reports, and the ones the cross-reference resolver reports. *)
Definition typed_error_types : list string :=
  ["missing_required_field"; "invalid_implementation"; "invalid_schema";
   "invalid_tags"; "invalid_fields"; "invalid_field"; "missing_field_name";
   "duplicate_field"; "missing_picklist_values"; "invalid_components";
   "invalid_component"; "invalid_component_type"; "invalid_trigger_type";
   "missing_action_ref"].

Definition typed_warning_types : list string :=
  ["unknown_field_type"; "unknown_type"].

Definition loader_error_types : list string :=
  ["yaml_syntax"; "invalid_format"; "missing_type"; "file_error"].

Definition cross_error_types : list string :=
  ["missing_action_reference"; "missing_schema_reference";
   "missing_field_reference"; "missing_integration_reference"].

Definition cross_warning_types : list string := ["missing_schema_reference"].

(** A diagnostic against file [p], of severity [sev] and of a category
    among [tys]. *)
Definition tagged (p : string) (sev : severity) (tys : list string)
    (e : ValidationError) : Prop :=
  file_path e = p ∧ severity_of e = sev ∧ error_type e ∈ tys.

Lemma tagged_error p tys ty :
  bool_decide (ty ∈ tys) = true -> tagged p SevError tys (error_diag p ty).
Proof. intros H. repeat split. by apply bool_decide_eq_true in H. Qed.

Lemma tagged_warning p tys ty :
  bool_decide (ty ∈ tys) = true -> tagged p SevWarning tys (warning_diag p ty).
Proof. intros H. repeat split. by apply bool_decide_eq_true in H. Qed.

Lemma tagged_weaken p sev tys tys' e :
  tys ⊆ tys' -> tagged p sev tys e -> tagged p sev tys' e.
Proof. intros Hsub (? & ? & ?). repeat split; auto. Qed.

Ltac tagged_leaf :=
  first
    [ apply keeps_add_error, tagged_error; vm_compute; reflexivity
    | apply keeps_add_warning, tagged_warning; vm_compute; reflexivity
    | apply keeps_appends_modify; intros; reflexivity ].

(** What a per-type validator does to the diagnostics of the run. *)
Definition typed_stage (p : string) : relation PlayScriptValidator :=
  appends (tagged p SevError typed_error_types)
          (tagged p SevWarning typed_warning_types).

(** What loading and validating one file does to them. *)
Definition file_stage (p : string) : relation PlayScriptValidator :=
  appends (tagged p SevError (typed_error_types ++ loader_error_types))
          (tagged p SevWarning typed_warning_types).

(** What resolving the references of one document does to them. *)
Definition cross_stage (p : string) : relation PlayScriptValidator :=
  appends (tagged p SevError cross_error_types)
          (tagged p SevWarning cross_warning_types).

Lemma schema_fields_loop_keeps (R : relation PlayScriptValidator) `{!PreOrder R}
    p object_name fields field_names :
  (forall field names, keeps R (schema_field_step p object_name field names)) ->
  keeps R (schema_fields_loop p object_name fields field_names).
Proof.
  intros Hstep. revert field_names.
  induction fields as [|field rest IH]; intros field_names; simpl.
  - apply keeps_ret; apply _.
  - apply keeps_bind; [apply _ | apply Hstep | intros ?; apply IH].
Qed.

Lemma validate_action_typed p data :
  keeps (typed_stage p) (_validate_action p data).
Proof.
  unfold _validate_action, _check_required_fields, typed_stage.
  keeps_go tagged_leaf.
Qed.

Lemma validate_schema_typed p data :
  keeps (typed_stage p) (_validate_schema p data).
Proof.
  unfold _validate_schema, _check_required_fields, typed_stage.
  keeps_go tagged_leaf.
  all: apply schema_fields_loop_keeps; [apply _|]; intros;
    unfold schema_field_step; keeps_go tagged_leaf.
Qed.

Lemma validate_layout_typed p data :
  keeps (typed_stage p) (_validate_layout p data).
Proof.
  unfold _validate_layout, _check_required_fields, typed_stage.
  keeps_go tagged_leaf.
Qed.

Lemma validate_automation_typed p data :
  keeps (typed_stage p) (_validate_automation p data).
Proof.
  unfold _validate_automation, _check_required_fields, typed_stage.
  keeps_go tagged_leaf.
Qed.

Lemma validate_integration_typed p data :
  keeps (typed_stage p) (_validate_integration p data).
Proof.
  unfold _validate_integration, _check_required_fields, typed_stage.
  keeps_go tagged_leaf.
Qed.

Lemma validate_form_typed p data :
  keeps (typed_stage p) (_validate_form p data).
Proof.
  unfold _validate_form, _check_required_fields, typed_stage.
  keeps_go tagged_leaf.
Qed.

(** A document whose [type] is truthy only gets diagnostics of the
    per-type validators. *)
Lemma validate_typed_typed p data :
  truthy (dict_get data "type") = true ->
  keeps (typed_stage p) (validate_typed p data).
Proof.
  intros Hty. unfold validate_typed. rewrite Hty. simpl.
  repeat case_match;
    auto using validate_action_typed, validate_schema_typed,
      validate_layout_typed, validate_automation_typed,
      validate_integration_typed, validate_form_typed.
  unfold typed_stage. tagged_leaf.
Qed.

Lemma typed_stage_file_stage p st st' :
  typed_stage p st st' -> file_stage p st st'.
Proof.
  apply appends_mono; [|done]. intros e. apply tagged_weaken.
  intros ty Hty. apply elem_of_app. by left.
Qed.

Lemma validate_file_stage f : keeps (file_stage (path f)) (_validate_file f).
Proof.
  unfold _validate_file, validate_file_body, file_stage.
  apply keeps_try_except; [apply _ | | intros _; tagged_leaf].
  destruct (content f) as [| | |data];
    [apply keeps_raise; apply _ | apply keeps_raise; apply _ | tagged_leaf |].
  destruct data; try tagged_leaf.
  apply keeps_bind; [apply _ | tagged_leaf | intros _].
  destruct (truthy (dict_get d "type")) eqn:Hty.
  - eapply keeps_mono; [apply typed_stage_file_stage|].
    by apply validate_typed_typed.
  - unfold validate_typed. rewrite Hty. simpl. tagged_leaf.
Qed.

Lemma cross_check_stage p data : keeps (cross_stage p) (cross_check (p, data)).
Proof.
  unfold cross_check, _validate_automation_references,
    _validate_layout_references, _validate_form_references, form_field_step,
    _validate_integration_references, _validate_field_reference, cross_stage.
  keeps_go tagged_leaf.
Qed.
(** ** Components a method leaves alone *)

(** A component that does not depend on the diagnostic lists. *)
Definition diag_blind {X} (f : PlayScriptValidator -> X) : Prop :=
  (forall es st, f (set_errors es st) = f st) ∧
  (forall ws st, f (set_warnings ws st) = f st).

Ltac same_leaf :=
  lazymatch goal with
  | |- keeps _ (add_error _ _) => unfold add_error
  | |- keeps _ (add_warning _ _) => unfold add_warning
  | |- keeps _ (modify _) => idtac
  end;
  apply keeps_modify; intros; unfold same_on; eauto.

Ltac same_start :=
  intros; repeat match goal with H : diag_blind _ |- _ => destruct H end.

Lemma cross_check_same {X} (f : PlayScriptValidator -> X) entry :
  diag_blind f -> keeps (same_on f) (cross_check entry).
Proof.
  same_start. destruct entry as [p data].
  unfold cross_check, _validate_automation_references,
    _validate_layout_references, _validate_form_references, form_field_step,
    _validate_integration_references, _validate_field_reference.
  keeps_go same_leaf.
Qed.

Lemma validate_layout_same {X} (f : PlayScriptValidator -> X) p data :
  diag_blind f -> keeps (same_on f) (_validate_layout p data).
Proof.
  same_start. unfold _validate_layout, _check_required_fields.
  keeps_go same_leaf.
Qed.

Lemma validate_automation_same {X} (f : PlayScriptValidator -> X) p data :
  diag_blind f -> keeps (same_on f) (_validate_automation p data).
Proof.
  same_start. unfold _validate_automation, _check_required_fields.
  keeps_go same_leaf.
Qed.

Lemma validate_form_same {X} (f : PlayScriptValidator -> X) p data :
  diag_blind f -> keeps (same_on f) (_validate_form p data).
Proof.
  same_start. unfold _validate_form, _check_required_fields.
  keeps_go same_leaf.
Qed.

Lemma validate_action_same {X} (f : PlayScriptValidator -> X) p data :
  diag_blind f -> (forall s st, f (set_action_names s st) = f st) ->
  keeps (same_on f) (_validate_action p data).
Proof.
  same_start. unfold _validate_action, _check_required_fields.
  keeps_go same_leaf.
Qed.

Lemma validate_integration_same {X} (f : PlayScriptValidator -> X) p data :
  diag_blind f -> (forall s st, f (set_integration_names s st) = f st) ->
  keeps (same_on f) (_validate_integration p data).
Proof.
  same_start. unfold _validate_integration, _check_required_fields.
  keeps_go same_leaf.
Qed.

Lemma validate_schema_same {X} (f : PlayScriptValidator -> X) p data :
  diag_blind f -> (forall s st, f (set_schema_objects s st) = f st) ->
  (forall m st, f (set_schema_fields m st) = f st) ->
  keeps (same_on f) (_validate_schema p data).
Proof.
  same_start. unfold _validate_schema, _check_required_fields.
  keeps_go same_leaf.
  all: apply schema_fields_loop_keeps; [apply _|]; intros;
    unfold schema_field_step; keeps_go same_leaf.
Qed.

Lemma all_files_blind : diag_blind all_files.
Proof. by split. Qed.

Lemma action_names_blind : diag_blind action_names.
Proof. by split. Qed.

Lemma validate_typed_all_files p data :
  keeps (same_on all_files) (validate_typed p data).
Proof.
  unfold validate_typed. repeat case_match;
    try (by first
      [ apply validate_action_same | apply validate_schema_same
      | apply validate_layout_same | apply validate_automation_same
      | apply validate_integration_same | apply validate_form_same ]).
  all: same_leaf.
Qed.

(** ** Outcomes *)

Lemma bind_ok {A B} (m : M A) (k : A -> M B) st a st1 :
  m st = (Ok a, st1) -> bind m k st = k a st1.
Proof. intros H. unfold bind. by rewrite H. Qed.

Lemma bind_raise {A B} (m : M A) (k : A -> M B) st e st1 :
  m st = (Raise e, st1) -> bind m k st = (Raise e, st1).
Proof. intros H. unfold bind. by rewrite H. Qed.

(** A computation that always returns. *)
Definition total {A} (m : M A) : Prop := forall st, exists a, fst (m st) = Ok a.

Lemma total_run (m : M unit) st : total m -> m st = (Ok tt, snd (m st)).
Proof. intros Hm. destruct (Hm st) as [[] Ha]. destruct (m st); simpl in *. by subst. Qed.

Lemma for_each_total {A} (l : list A) (body : A -> M unit) :
  (forall x, total (body x)) -> total (for_each l body).
Proof.
  intros Hb. induction l as [|x l IH]; intros st; simpl; [by exists tt|].
  rewrite (bind_ok _ _ _ _ _ (total_run _ st (Hb x))). apply IH.
Qed.

Lemma for_each_cons_total {A} (x : A) l (body : A -> M unit) st :
  total (body x) ->
  for_each (x :: l) body st = for_each l body (snd (body x st)).
Proof. intros Hx. simpl. by rewrite (bind_ok _ _ _ _ _ (total_run _ st Hx)). Qed.

Lemma for_each_app {A} (l1 l2 : list A) (body : A -> M unit) st :
  for_each (l1 ++ l2) body st =
  (for_each l1 body ;; for_each l2 body) st.
Proof.
  revert st. induction l1 as [|x l1 IH]; intros st; simpl; [done|].
  unfold bind. destruct (body x st) as [[[]|e] st1]; [|done].
  rewrite IH. reflexivity.
Qed.

Lemma check_required_total p data fields :
  total (_check_required_fields p data fields).
Proof.
  apply for_each_total. intros field st.
  destruct (dict_has data field); by exists tt.
Qed.

Lemma validate_file_total f : total (_validate_file f).
Proof.
  intros st. exists tt. unfold _validate_file, try_except.
  by destruct (validate_file_body f st) as [[[]|e] st1].
Qed.

Lemma validate_syntax_total t : total (_validate_syntax t).
Proof.
  destruct t; simpl; try apply for_each_total; auto using validate_file_total.
  intros st. by exists tt.
Qed.

(** [_validate_syntax] runs [_validate_file] over the enumerated files,
    unless the target is missing. *)
Lemma validate_syntax_files t st :
  (forall p, t ≠ TargetMissing p) ->
  _validate_syntax t st = for_each (target_files t) _validate_file st.
Proof.
  intros Ht. destruct t as [files|f|files|p]; simpl; try done.
  - rewrite (bind_ok _ _ _ _ _ (total_run _ st (validate_file_total f))).
    apply total_run, validate_file_total.
  - by destruct (Ht p).
Qed.

(** ** The verdict *)

(** Errors are recorded with severity [error], warnings with severity
    [warning], whatever the stage. *)
Definition severities : relation PlayScriptValidator :=
  appends (fun e => severity_of e = SevError)
          (fun e => severity_of e = SevWarning).

Lemma tagged_severities p tys tys' st st' :
  appends (tagged p SevError tys) (tagged p SevWarning tys') st st' ->
  severities st st'.
Proof. apply appends_mono; by intros e (? & ? & ?). Qed.

Lemma validate_syntax_severities t : keeps severities (_validate_syntax t).
Proof.
  assert (forall files, keeps severities (for_each files _validate_file)) as Hfiles.
  { intros files. apply keeps_for_each; [apply _|]. intros f.
    eapply keeps_mono; [apply tagged_severities | apply validate_file_stage]. }
  destruct t; simpl; auto.
  - eapply keeps_mono; [apply tagged_severities | apply validate_file_stage].
  - by apply keeps_add_error.
Qed.

Lemma cross_file_severities : keeps severities _validate_cross_file_references.
Proof.
  unfold _validate_cross_file_references.
  apply keeps_bind; [apply _ | apply keeps_get_state; apply _ | intros st].
  apply keeps_for_each; [apply _ | intros [p data]].
  eapply keeps_mono; [apply tagged_severities | apply cross_check_stage].
Qed.

Lemma validate_all_severities t syntax_only cross_file_only :
  keeps severities (validate_all t syntax_only cross_file_only).
Proof.
  unfold validate_all.
  keeps_go ltac:(first [ apply validate_syntax_severities
                       | apply cross_file_severities ]).
Qed.

(** A run that returns has the verdict [true] exactly when its list of
    errors is empty, and on a fresh validator that list holds exactly the
    diagnostics of severity [error]. *)
Lemma validate_all_verdict t syntax_only cross_file_only st0 b st :
  validate_all t syntax_only cross_file_only st0 = (Ok b, st) ->
  b = true <-> errors st = [].
Proof.
  unfold validate_all. intros H.
  unfold bind in H.
  destruct (when (negb cross_file_only) (_validate_syntax t) st0) as [[[]|e1] st1];
    [|done].
  destruct (when (negb syntax_only) _validate_cross_file_references st1)
    as [[[]|e2] st2]; [|done].
  simpl in H. injection H as <- <-.
  rewrite bool_decide_eq_true. by destruct (errors st2).
Qed.

Lemma fresh_run_severities t syntax_only cross_file_only st :
  st = snd (validate_all t syntax_only cross_file_only init) ->
  Forall (fun e => severity_of e = SevError) (errors st) ∧
  Forall (fun e => severity_of e = SevWarning) (warnings st).
Proof.
  intros ->.
  destruct (validate_all_severities t syntax_only cross_file_only init)
    as (es & ws & -> & -> & ? & ?).
  done.
Qed.

(** *** Cross-file-only mode *)

(** An automation that invokes an action no document declares
    (scenario C of the specification). *)
Definition ghost_automation : ps_file :=
  mkFile "ghost_automation.ps" (Parsed (YMap
    [(KStr "type", YStr "automation");
     (KStr "name", YStr "notify_owner");
     (KStr "description", YStr "Notify the owner");
     (KStr "trigger", YMap [(KStr "type", YStr "manual")]);
     (KStr "action", YMap [(KStr "ref", YStr "ghost.action")])])).

(** On a fresh validator, cross-file-only mode loads no document: the
    resolver has nothing to walk and the run reports nothing. *)
Lemma cross_file_only_fresh t syntax_only :
  validate_all t syntax_only true init = (Ok true, init).
Proof. by destruct syntax_only. Qed.

(** C1. Cross-file-only mode does not build the Symbol Table: the syntax
    stage is skipped, not run silently. On a project holding one automation
    whose action reference is undeclared, the full run reports one
    [missing_action_reference] error, and the cross-file-only run reports
    nothing, leaves the validator as it was and returns [true]. *)
Theorem cross_file_only_reports_nothing :
  diagnostics (snd (validate_all (AllFiles [ghost_automation]) false false init))
    = [error_diag "ghost_automation.ps" "missing_action_reference"] ∧
  validate_all (AllFiles [ghost_automation]) false true init = (Ok true, init).
Proof. split; [by vm_compute | reflexivity]. Qed.

(** *** A run the resolver aborts *)

Definition contact_schema : ps_file :=
  mkFile "contact_schema.ps" (Parsed (YMap
    [(KStr "type", YStr "schema");
     (KStr "object", YStr "contact");
     (KStr "description", YStr "A contact");
     (KStr "fields", YList
        [YMap [(KStr "name", YStr "email"); (KStr "type", YStr "email")]])])).

(** A layout whose component has a [fields:] key with nothing under it. *)
Definition blank_fields_layout : ps_file :=
  mkFile "contact_layout.ps" (Parsed (YMap
    [(KStr "type", YStr "layout");
     (KStr "name", YStr "contact");
     (KStr "components", YList
        [YMap [(KStr "type", YStr "field_section"); (KStr "fields", YNull)]])])).

(** C2. The exit status is not 0 on every run without errors: iterating the
    null [fields] of a layout component raises [TypeError] in
    [_validate_layout_references], outside any [try]; [validate_all] returns
    nothing and the process ends with status 1 although no error and no
    warning was recorded. *)
Theorem blank_fields_abort_the_run :
  let project := AllFiles [contact_schema; blank_fields_layout] in
  fst (validate_all project false false init) = Raise TypeError ∧
  fst (main project false false) = 1 ∧
  errors (snd (main project false false)) = [] ∧
  warnings (snd (main project false false)) = [].
Proof. by vm_compute. Qed.

(** ** Diagnostics a computation emits *)

(** The diagnostics recorded between [st] and a later state [st']. *)
Definition emitted_between (st st' : PlayScriptValidator) : list ValidationError :=
  drop (List.length (errors st)) (errors st')
  ++ drop (List.length (warnings st)) (warnings st').

(** The diagnostics [m] records when it runs from [st]. *)
Definition emitted {A} (m : M A) (st : PlayScriptValidator) : list ValidationError :=
  emitted_between st (snd (m st)).

(** The diagnostics of category [ty] in a list. *)
Definition of_type (ty : string) (l : list ValidationError) : list ValidationError :=
  filter (fun e => error_type e = ty) l.

(** The validator after [self.errors.append(ValidationError(p, ty, ...))]. *)
Definition with_error (p ty : string) (st : PlayScriptValidator) : PlayScriptValidator :=
  set_errors (errors st ++ [error_diag p ty]) st.

Lemma emitted_between_app st st' es ws :
  errors st' = errors st ++ es -> warnings st' = warnings st ++ ws ->
  emitted_between st st' = es ++ ws.
Proof.
  intros He Hw. unfold emitted_between. rewrite He, Hw.
  by rewrite !drop_app_length.
Qed.

Lemma emitted_init {A} (m : M A) : emitted m init = diagnostics (snd (m init)).
Proof. reflexivity. Qed.

Lemma of_type_app ty l1 l2 : of_type ty (l1 ++ l2) = of_type ty l1 ++ of_type ty l2.
Proof. apply filter_app. Qed.

Lemma of_type_none ty l :
  Forall (fun e => error_type e ≠ ty) l -> of_type ty l = [].
Proof.
  unfold of_type. induction 1 as [|e l He _ IH]; [done|].
  by rewrite filter_cons_False.
Qed.

Lemma set_errors_same st : set_errors (errors st ++ []) st = st.
Proof. destruct st. unfold set_errors. simpl. by rewrite app_nil_r. Qed.

(** [_check_required_fields] returns, having appended only
    [missing_required_field] errors. *)
Lemma check_required_exact p data fields st :
  exists es,
    _check_required_fields p data fields st
      = (Ok tt, set_errors (errors st ++ es) st) ∧
    Forall (fun e => e = error_diag p "missing_required_field") es.
Proof.
  unfold _check_required_fields. revert st.
  induction fields as [|field rest IH]; intros st; simpl.
  - exists []. by rewrite set_errors_same.
  - destruct (dict_has data field); simpl.
    + rewrite (bind_ok _ _ st tt st) by done. apply (IH st).
    + rewrite (bind_ok _ _ st tt (with_error p "missing_required_field" st)) by done.
      destruct (IH (with_error p "missing_required_field" st)) as (es & -> & Hes).
      exists (error_diag p "missing_required_field" :: es). split.
      * f_equal. unfold with_error, set_errors. simpl.
        by rewrite <- app_assoc.
      * by constructor.
Qed.

(** *** Tags of an action *)





(** ** The loader *)

Lemma appends_emitted Pe Pw st st' :
  appends Pe Pw st st' ->
  Forall (fun e => Pe e ∨ Pw e) (emitted_between st st').
Proof.
  intros (es & ws & He & Hw & Hes & Hws).
  rewrite (emitted_between_app _ _ _ _ He Hw). apply Forall_app. split.
  - eapply Forall_impl; [exact Hes | by left].
  - eapply Forall_impl; [exact Hws | by right].
Qed.

Lemma store_elem p data fs : (p, data) ∈ store p data fs.
Proof.
  induction fs as [|[q old] fs IH]; simpl; [left|].
  destruct (String.eqb q p) eqn:Hq; [|by right].
  apply String.eqb_eq in Hq as ->. left.
Qed.

Lemma store_length_ge p data fs : (List.length fs <= List.length (store p data fs))%nat.
Proof.
  induction fs as [|[q old] fs IH]; simpl; [lia|].
  destruct (String.eqb q p); simpl; lia.
Qed.

Lemma store_fresh p data fs :
  p ∉ map fst fs -> store p data fs = fs ++ [(p, data)].
Proof.
  induction fs as [|[q old] fs IH]; simpl; intros Hp; [done|].
  destruct (String.eqb q p) eqn:Hq.
  - apply String.eqb_eq in Hq as ->. destruct Hp. left.
  - rewrite IH; [done|]. intros Hin. apply Hp. by right.
Qed.

(** The documents a file adds to [all_files]: a top-level mapping is stored
    before any check on it. *)
Lemma validate_file_all_files f st :
  all_files (snd (_validate_file f st)) =
  match content f with
  | Parsed (YMap data) => store (path f) data (all_files st)
  | _ => all_files st
  end.
Proof.
  unfold _validate_file, try_except.
  assert (forall st1 e, all_files (snd (add_error (path f) e st1)) = all_files st1)
    as Herr by done.
  destruct (content f) as [| | |data] eqn:Hc; unfold validate_file_body; rewrite Hc;
    try done.
  destruct data; try done. unfold bind, modify.
  pose proof (validate_typed_all_files (path f) d
    (set_all_files (store (path f) d (all_files st)) st)) as Hsame.
  unfold same_on in Hsame.
  destruct (validate_typed (path f) d _) as [[[]|e] st1]; simpl in *; done.
Qed.

(** A document whose [type] is truthy gets diagnostics of the per-type
    validators only, or a [file_error]. *)
Lemma validate_file_typed_doc p data :
  truthy (dict_get data "type") = true ->
  keeps (appends (tagged p SevError ("file_error" :: typed_error_types))
                 (tagged p SevWarning typed_warning_types))
        (_validate_file (mkFile p (Parsed (YMap data)))).
Proof.
  intros Hty. unfold _validate_file, validate_file_body. simpl.
  apply keeps_try_except; [apply _ | | intros _; tagged_leaf].
  apply keeps_bind; [apply _ | tagged_leaf | intros _].
  eapply keeps_mono; [|by apply validate_typed_typed].
  intros st st'. apply appends_mono; [|done]. intros e. apply tagged_weaken.
  intros ty Hin. by right.
Qed.

Lemma not_in_types (ty : string) (tys : list string) :
  bool_decide (ty ∈ tys) = false -> ty ∉ tys.
Proof. apply bool_decide_eq_false. Qed.

(** *** Documents without a type *)

(** A document whose [type] key is present with an empty value. *)
Definition blank_type_document : dict :=
  [(KStr "type", YStr ""); (KStr "name", YStr "contact")].

(** C7, as stated, fails: the mapping has a [type] key and the loader still
    emits [missing_type]. *)
Lemma present_type_reported_missing :
  dict_has blank_type_document "type" = true ∧
  emitted (_validate_file (mkFile "contact.ps" (Parsed (YMap blank_type_document))))
    init = [error_diag "contact.ps" "missing_type"].
Proof. by vm_compute. Qed.

(** C7, amended. For every successfully parsed top-level mapping, the loader
    emits [missing_type] (once, an error against the file) if and only if
    the mapping lacks a [type] key or carries a falsy value under it (null,
    empty string, zero, false, empty sequence or mapping); such a document
    gets no typed validation and no other diagnostic, and in either case the
    document is stored in the project document set, which the summary
    counts. *)
Theorem missing_type_iff_falsy_type p data st :
  let f := mkFile p (Parsed (YMap data)) in
  of_type "missing_type" (emitted (_validate_file f) st)
    = (if truthy (dict_get data "type") then []
       else [error_diag p "missing_type"]) ∧
  (truthy (dict_get data "type") = false ->
   _validate_file f st
     = (Ok tt, with_error p "missing_type"
                 (set_all_files (store p data (all_files st)) st))) ∧
  all_files (snd (_validate_file f st)) = store p data (all_files st) ∧
  (p, data) ∈ all_files (snd (_validate_file f st)).
Proof.
  intros f.
  assert (all_files (snd (_validate_file f st)) = store p data (all_files st))
    as Hfiles by apply validate_file_all_files.
  assert (truthy (dict_get data "type") = false ->
   _validate_file f st
     = (Ok tt, with_error p "missing_type"
                 (set_all_files (store p data (all_files st)) st))) as Hfalsy.
  { intros Hty. unfold f, _validate_file, validate_file_body, try_except,
      validate_typed. simpl. by rewrite Hty. }
  split; [|split; [exact Hfalsy | split; [exact Hfiles|]]].
  - destruct (truthy (dict_get data "type")) eqn:Hty.
    + apply of_type_none. unfold emitted.
      eapply Forall_impl; [apply appends_emitted, (validate_file_typed_doc p data Hty)|].
      intros e [(_ & _ & Hin)|(_ & _ & Hin)] Heq; rewrite Heq in Hin;
        refine (not_in_types _ _ _ Hin); vm_compute; reflexivity.
    + unfold emitted. rewrite (Hfalsy eq_refl). simpl.
      erewrite emitted_between_app;
        [| simpl; reflexivity | simpl; symmetry; apply app_nil_r].
      reflexivity.
  - rewrite Hfiles. apply store_elem.
Qed.

Lemma missing_type_witness :
  let data := [(KStr "name", YStr "contact")] in
  truthy (dict_get data "type") = false ∧
  _validate_file (mkFile "contact.ps" (Parsed (YMap data))) init
    = (Ok tt, with_error "contact.ps" "missing_type"
                (set_all_files (store "contact.ps" data (all_files init)) init)).
Proof.
  intros data.
  assert (truthy (dict_get data "type") = false) as Hty by reflexivity.
  split; [exact Hty|].
  exact (proj1 (proj2 (missing_type_iff_falsy_type "contact.ps" data init)) Hty).
Defined.

(** ** Field references *)

(** [split_dot] cuts a name at its first dot. *)
Lemma split_dot_app obj field :
  has_dot obj = false ->
  split_dot (obj ++ String dot field)%string = Some (obj, field).
Proof.
  unfold has_dot. induction obj as [|c obj IH]; simpl; intros Hobj.
  - reflexivity.
  - destruct (Ascii.eqb c dot); [done|].
    destruct (split_dot obj) as [[a b]|]; [done|]. by rewrite IH.
Qed.

Lemma split_dot_inv s obj field :
  split_dot s = Some (obj, field) ->
  s = (obj ++ String dot field)%string ∧ has_dot obj = false.
Proof.
  unfold has_dot. revert obj. induction s as [|c s IH]; simpl; intros obj H; [done|].
  destruct (Ascii.eqb c dot) eqn:Hc.
  - apply Ascii.eqb_eq in Hc as ->. by injection H as <- <-.
  - destruct (split_dot s) as [[a b]|]; [|done]. injection H as <- <-.
    destruct (IH a eq_refl) as [-> Ha]. simpl. rewrite Hc. split; [done|].
    by destruct (split_dot a).
Qed.

(** C6. A qualified reference [obj.field], from a component of a layout
    (through [_validate_field_reference]) or from the [maps_to] of a form
    field: when [obj] is a key of [schema_fields] and [field] is not in its
    set, one [missing_field_reference] error is appended and nothing else
    changes; when [obj] is not a key of [schema_fields], the validator is
    left exactly as it was: no diagnostic of any kind. *)
Theorem qualified_reference_resolution p layout_name fd s obj field st :
  split_dot s = Some (obj, field) ->
  dict_lookup fd (KStr "maps_to") = Some (YStr s) ->
  (forall known,
     schema_fields st !! KStr obj = Some known -> KStr field ∉ known ->
     _validate_field_reference p layout_name (YStr s) st
       = (Ok tt, with_error p "missing_field_reference" st) ∧
     form_field_step p (YMap fd) st
       = (Ok tt, with_error p "missing_field_reference" st)) ∧
  (schema_fields st !! KStr obj = None ->
     _validate_field_reference p layout_name (YStr s) st = (Ok tt, st) ∧
     form_field_step p (YMap fd) st = (Ok tt, st)).
Proof.
  intros Hs Hfd.
  assert (forall r,
    check_qualified p (YStr s) st = r ->
    _validate_field_reference p layout_name (YStr s) st = r ∧
    form_field_step p (YMap fd) st = r) as Hboth.
  { intros r <-. unfold _validate_field_reference, form_field_step, dict_has,
      dict_get, dict_get_default, contains_dot, has_dot, bind, ret, when.
    by rewrite Hfd, Hs. }
  split.
  - intros known Hknown Hfield. apply Hboth.
    unfold check_qualified, split_qualified, field_missing, hash, bind, ret,
      get_state, when. rewrite Hs. simpl. rewrite Hknown.
    by rewrite bool_decide_eq_false_2.
  - intros Hunknown. apply Hboth.
    unfold check_qualified, split_qualified, field_missing, hash, bind, ret,
      get_state, when. rewrite Hs. simpl. by rewrite Hunknown.
Qed.

Lemma qualified_reference_witness :
  let st := set_schema_fields {[KStr "contact" := {[KStr "email"]}]} init in
  let fd := [(KStr "name", YStr "phone"); (KStr "maps_to", YStr "contact.phone")] in
  _validate_field_reference "contact_form.ps" (YStr "contact")
    (YStr "contact.phone") st
    = (Ok tt, with_error "contact_form.ps" "missing_field_reference" st) ∧
  form_field_step "contact_form.ps" (YMap fd) st
    = (Ok tt, with_error "contact_form.ps" "missing_field_reference" st).
Proof.
  intros st fd.
  refine (proj1 (qualified_reference_resolution "contact_form.ps"
    (YStr "contact") fd "contact.phone" "contact" "phone" st _ _)
    {[KStr "email"]} _ _).
  - reflexivity.
  - reflexivity.
  - by vm_compute.
  - intros H%elem_of_singleton. discriminate H.
Defined.

(** C10. A form field whose [maps_to] contains no ['.'] leaves the
    validator exactly as it was, whatever the Symbol Table holds, and the
    loop over the form's fields goes on as if the entry were not there. *)
Theorem unqualified_maps_to_unchecked p fd maps_to st :
  dict_lookup fd (KStr "maps_to") = Some maps_to ->
  fst (contains_dot maps_to st) = Ok false ->
  form_field_step p (YMap fd) st = (Ok tt, st) ∧
  forall before after,
    for_each (before ++ YMap fd :: after) (form_field_step p) st
    = for_each (before ++ after) (form_field_step p) st.
Proof.
  intros Hfd Hdot.
  assert (forall st1, form_field_step p (YMap fd) st1 = (Ok tt, st1)) as Hstep.
  { intros st1. unfold form_field_step, dict_has, dict_get, dict_get_default,
      bind, when. rewrite Hfd.
    destruct maps_to; simpl in *; try done;
      injection Hdot as ->; reflexivity. }
  split; [apply Hstep|]. intros before after.
  rewrite !for_each_app. unfold bind.
  destruct (for_each before (form_field_step p) st) as [[[]|e] st1]; [|done].
  change (for_each (YMap fd :: after) (form_field_step p) st1)
    with ((form_field_step p (YMap fd) ;; for_each after (form_field_step p)) st1).
  by rewrite (bind_ok _ _ _ _ _ (Hstep st1)).
Qed.

Lemma unqualified_maps_to_witness :
  let st := set_schema_objects {[KStr "contact"]}
              (set_schema_fields {[KStr "contact" := {[KStr "email"]}]} init) in
  let fd := [(KStr "name", YStr "phone"); (KStr "maps_to", YStr "phone")] in
  form_field_step "contact_form.ps" (YMap fd) st = (Ok tt, st).
Proof.
  intros st fd.
  refine (proj1 (unqualified_maps_to_unchecked "contact_form.ps" fd
    (YStr "phone") st _ _)); reflexivity.
Defined.

(** ** Fields of a schema *)

(** The name a field entry registers: the key of its truthy, hashable
    [name]. *)
Definition field_key (field : yaml) : option key :=
  match field with
  | YMap fd =>
      let field_name := dict_get fd "name" in
      if truthy field_name then hash_key field_name else None
  | _ => None
  end.

(** The field names of a [fields] sequence, in document order, repetitions
    included. *)
Definition field_keys (fields : list yaml) : list key := omap field_key fields.

(** The field names a schema document declares. *)
Definition declared_fields (data : dict) : list key :=
  match dict_get_default data "fields" (YList []) with
  | YList fl => field_keys fl
  | _ => []
  end.

(** [within ko allowed]: the field set registered for object [ko], if any,
    stays registered and only grows by names among [allowed]. *)
Definition within (ko : key) (allowed : list key) : relation PlayScriptValidator :=
  fun st st' =>
    forall known, schema_fields st !! ko = Some known ->
    exists known', schema_fields st' !! ko = Some known' ∧
                   forall k, k ∈ known' -> k ∈ known ∨ k ∈ allowed.

#[global] Instance within_preorder ko allowed : PreOrder (within ko allowed).
Proof.
  split.
  - intros st known Hk. exists known. auto.
  - intros a b c Hab Hbc known Hk.
    destruct (Hab known Hk) as (known1 & Hk1 & Hsub1).
    destruct (Hbc known1 Hk1) as (known2 & Hk2 & Hsub2).
    exists known2. split; [done|]. intros k Hin.
    destruct (Hsub2 k Hin) as [?|?]; auto.
Qed.

Lemma within_same ko allowed st st' :
  schema_fields st' = schema_fields st -> within ko allowed st st'.
Proof. intros Heq known Hk. exists known. rewrite Heq. auto. Qed.

Lemma add_schema_field_within o ko kf allowed :
  hash_key o = Some ko -> kf ∈ allowed ->
  keeps (within ko allowed) (add_schema_field o kf).
Proof.
  intros Hko Hkf st. unfold add_schema_field, hash, bind, get_state.
  rewrite Hko. simpl.
  destruct (schema_fields st !! ko) as [known|] eqn:Hknown; simpl; [|reflexivity].
  intros known0 Hk0. exists ({[kf]} ∪ known). simpl. rewrite lookup_insert_eq.
  split; [done|]. intros k [->%elem_of_singleton|Hin]%elem_of_union; [by right|].
  left. congruence.
Qed.

Ltac within_leaf :=
  lazymatch goal with
  | |- keeps _ (add_error _ _) => unfold add_error
  | |- keeps _ (add_warning _ _) => unfold add_warning
  | |- keeps _ (modify _) => idtac
  end;
  apply keeps_modify; intros; apply within_same; reflexivity.

Ltac within_go :=
  repeat (unfold hash, startswith; cbv beta iota zeta;
          keeps_step ltac:(first
            [ apply add_schema_field_within; [assumption | assumption]
            | within_leaf ])).

Lemma schema_field_step_within p o ko field names allowed :
  hash_key o = Some ko ->
  (forall kf, field_key field = Some kf -> kf ∈ allowed) ->
  keeps (within ko allowed) (schema_field_step p o field names).
Proof.
  intros Hko Hfield. unfold schema_field_step.
  destruct field as [| | | | |fd]; try (by within_go).
  simpl in Hfield. destruct (truthy (dict_get fd "name")); cbn [negb];
    [|by within_go].
  unfold hash at 1.
  destruct (hash_key (dict_get fd "name")) as [kf|];
    [|intros st; reflexivity].
  specialize (Hfield kf eq_refl).
  change (keeps (within ko allowed)
    (kf' <- ret kf ;;
     when (bool_decide (kf' ∈ names)) (add_error p "duplicate_field") ;;
     when (truthy o) (add_schema_field o kf) ;;
     when (truthy (dict_get fd "type")
           && negb (in_str_list (dict_get fd "type") valid_types))
       (add_warning p "unknown_field_type") ;;
     when (truthy (dict_get fd "type"))
       (is_picklist <- startswith (dict_get fd "type") "picklist" ;;
        when (is_picklist && negb (dict_has fd "values"))
          (add_error p "missing_picklist_values")) ;;
     ret ({[kf']} ∪ names))).
  by within_go.
Qed.

Lemma schema_fields_loop_within p o ko fields names allowed :
  hash_key o = Some ko ->
  (forall kf, kf ∈ field_keys fields -> kf ∈ allowed) ->
  keeps (within ko allowed) (schema_fields_loop p o fields names).
Proof.
  intros Hko. revert names.
  induction fields as [|field rest IH]; intros names Hallowed; simpl.
  - apply keeps_ret; apply _.
  - apply keeps_bind; [apply _ | | intros names'].
    + apply schema_field_step_within; [done|]. intros kf Hkf.
      apply Hallowed. unfold field_keys. simpl. rewrite Hkf. left.
    + apply IH. intros kf Hkf. apply Hallowed. unfold field_keys. simpl.
      destruct (field_key field); [by right | done].
Qed.

(** C9. Validating a schema document whose [object] is already registered
    replaces the object's field set: afterwards the set holds only field
    names the later document declares, and a name only the earlier document
    registered is gone. *)
Theorem redeclared_object_fields_replaced p data st ko old :
  truthy (dict_get data "object") = true ->
  hash_key (dict_get data "object") = Some ko ->
  schema_fields st !! ko = Some old ->
  exists new,
    schema_fields (snd (_validate_schema p data st)) !! ko = Some new ∧
    (forall k, k ∈ new -> k ∈ declared_fields data) ∧
    (forall k, k ∈ old -> k ∉ declared_fields data -> k ∉ new).
Proof.
  intros Htruthy Hko Hold.
  assert (exists new,
    schema_fields (snd (_validate_schema p data st)) !! ko = Some new ∧
    (forall k, k ∈ new -> k ∈ declared_fields data)) as (new & Hnew & Hsub).
  2: { exists new. split; [done|]. split; [done|]. intros k _ Hout Hin.
       by apply Hout, Hsub. }
  unfold _validate_schema.
  destruct (check_required_exact p data ["object"; "description"; "fields"] st)
    as (es & Hreq & _).
  rewrite (bind_ok _ _ _ _ _ Hreq). rewrite Htruthy. unfold when, hash at 1.
  rewrite Hko. unfold declared_fields.
  set (st2 := set_schema_fields (<[ko := ∅]> (schema_fields (set_errors (errors st ++ es) st)))
                (set_schema_objects ({[ko]} ∪ schema_objects (set_errors (errors st ++ es) st))
                   (set_errors (errors st ++ es) st))).
  assert (schema_fields st2 !! ko = Some ∅) as Hst2.
  { unfold st2. simpl. apply lookup_insert_eq. }
  assert (forall m : M unit,
    keeps (within ko (match dict_get_default data "fields" (YList []) with
                      | YList fl => field_keys fl | _ => [] end)) m ->
    exists new, schema_fields (snd (m st2)) !! ko = Some new ∧
      forall k, k ∈ new ->
        k ∈ match dict_get_default data "fields" (YList []) with
            | YList fl => field_keys fl | _ => [] end) as Hfin.
  { intros m Hm. destruct (Hm st2 ∅ Hst2) as (new & Hnew & Hsub).
    exists new. split; [done|]. intros k Hin.
    destruct (Hsub k Hin) as [Hempty|?]; [|done]. set_solver. }
  change (exists new,
    schema_fields (snd (match dict_get_default data "fields" (YList []) with
      | YList fl => schema_fields_loop p (dict_get data "object") fl ∅
      | _ => add_error p "invalid_fields" end st2)) !! ko = Some new ∧
    forall k, k ∈ new -> k ∈ match dict_get_default data "fields" (YList []) with
            | YList fl => field_keys fl | _ => [] end).
  apply Hfin.
  destruct (dict_get_default data "fields" (YList [])); try within_leaf.
  by apply schema_fields_loop_within.
Qed.

(** A second declaration of [contact], with the single field [phone]. *)
Definition contact_redeclared : dict :=
  [(KStr "type", YStr "schema");
   (KStr "object", YStr "contact");
   (KStr "description", YStr "A contact, again");
   (KStr "fields", YList
      [YMap [(KStr "name", YStr "phone"); (KStr "type", YStr "string")]])].

Lemma redeclared_object_witness :
  let st := set_schema_fields {[KStr "contact" := {[KStr "email"]}]} init in
  exists new,
    schema_fields (snd (_validate_schema "contact_again.ps" contact_redeclared st))
      !! KStr "contact" = Some new ∧
    (forall k, k ∈ new -> k ∈ declared_fields contact_redeclared) ∧
    (forall k, k ∈ ({[KStr "email"]} : gset key) ->
       k ∉ declared_fields contact_redeclared -> k ∉ new).
Proof.
  intros st.
  apply (redeclared_object_fields_replaced "contact_again.ps"
           contact_redeclared st (KStr "contact") {[KStr "email"]}).
  - reflexivity.
  - reflexivity.
  - reflexivity.
Defined.

(** ** Runs *)

(** The validator a run without [--cross-file] leaves behind: the syntax
    stage always returns, and the resolver runs from where it ends. *)
Lemma validate_all_state t syntax_only st0 :
  snd (validate_all t syntax_only false st0) =
  if syntax_only then snd (_validate_syntax t st0)
  else snd (_validate_cross_file_references (snd (_validate_syntax t st0))).
Proof.
  unfold validate_all. simpl.
  rewrite (bind_ok _ _ _ _ _ (total_run _ st0 (validate_syntax_total t))).
  destruct syntax_only; simpl; [done|]. unfold bind at 1.
  by destruct (_validate_cross_file_references _) as [[[]|e] st2].
Qed.

Lemma cross_file_references_run st :
  _validate_cross_file_references st = for_each (all_files st) cross_check st.
Proof. reflexivity. Qed.

(** The paths under which documents are stored. *)
Definition stored_paths (st : PlayScriptValidator) : list string :=
  map fst (all_files st).

(** The diagnostics recorded against file [p]. *)
Definition about (p : string) (l : list ValidationError) : list ValidationError :=
  filter (fun e => file_path e = p) l.

(** [untouched p]: the computation records nothing against file [p] and
    stores no document under [p]. *)
Definition untouched (p : string) : relation PlayScriptValidator :=
  fun st st' =>
    about p (errors st') = about p (errors st) ∧
    about p (warnings st') = about p (warnings st) ∧
    (p ∉ stored_paths st -> p ∉ stored_paths st').

#[global] Instance untouched_preorder p : PreOrder (untouched p).
Proof.
  split.
  - by intros st.
  - intros a b c (He1 & Hw1 & Hf1) (He2 & Hw2 & Hf2).
    split; [congruence|]. split; [congruence|auto].
Qed.

Lemma about_app p l1 l2 : about p (l1 ++ l2) = about p l1 ++ about p l2.
Proof. apply filter_app. Qed.

Lemma about_none p l : Forall (fun e => file_path e ≠ p) l -> about p l = [].
Proof.
  unfold about. induction 1 as [|e l He _ IH]; [done|].
  by rewrite filter_cons_False.
Qed.

Lemma appends_about p q Pe Pw st st' :
  q ≠ p ->
  (forall e, Pe e -> file_path e = q) -> (forall e, Pw e -> file_path e = q) ->
  appends Pe Pw st st' ->
  about p (errors st') = about p (errors st) ∧
  about p (warnings st') = about p (warnings st).
Proof.
  intros Hq HPe HPw (es & ws & -> & -> & Hes & Hws).
  rewrite !about_app.
  rewrite (about_none p es), (about_none p ws), !app_nil_r; [done| |].
  - eapply Forall_impl; [exact Hws|]. intros e He%HPw. congruence.
  - eapply Forall_impl; [exact Hes|]. intros e He%HPe. congruence.
Qed.

Lemma store_paths x p data fs :
  x ∈ map fst (store p data fs) -> x = p ∨ x ∈ map fst fs.
Proof.
  induction fs as [|[q old] fs IH]; simpl.
  - intros ->%list_elem_of_singleton. by left.
  - destruct (String.eqb q p) eqn:Hq; simpl.
    + apply String.eqb_eq in Hq as ->. intros [->|Hin]%elem_of_cons; auto.
      right. by right.
    + intros [->|Hin]%elem_of_cons; [right; left|].
      destruct (IH Hin) as [->|?]; [by left|]. right. by right.
Qed.

(** A file leaves the other files' diagnostics and documents alone. *)
Lemma validate_file_untouched p g :
  path g ≠ p -> keeps (untouched p) (_validate_file g).
Proof.
  intros Hg st. unfold untouched.
  assert (about p (errors (snd (_validate_file g st))) = about p (errors st) ∧
          about p (warnings (snd (_validate_file g st))) = about p (warnings st))
    as [He Hw].
  { eapply (appends_about p (path g));
      [exact Hg | | | apply validate_file_stage]; by intros e (? & _). }
  split; [done|]. split; [done|]. unfold stored_paths.
  rewrite validate_file_all_files. intros Hout.
  destruct (content g) as [| | |[| | | | |data]]; try done.
  intros [->|Hin]%store_paths; done.
Qed.

(** So does the resolution of another document's references. *)
Lemma cross_check_untouched p q data :
  q ≠ p -> keeps (untouched p) (cross_check (q, data)).
Proof.
  intros Hq st. unfold untouched.
  assert (about p (errors (snd (cross_check (q, data) st))) = about p (errors st) ∧
          about p (warnings (snd (cross_check (q, data) st))) = about p (warnings st))
    as [He Hw].
  { eapply (appends_about p q);
      [exact Hq | | | apply cross_check_stage]; by intros e (? & _). }
  split; [done|]. split; [done|]. unfold stored_paths.
  by rewrite (cross_check_same all_files (q, data) all_files_blind st).
Qed.

(** The resolver only visits stored documents. *)
Lemma cross_file_references_untouched p st :
  p ∉ stored_paths st ->
  untouched p st (snd (_validate_cross_file_references st)).
Proof.
  intros Hp. rewrite cross_file_references_run.
  apply keeps_for_each_in; [apply _|]. intros [q data] Hin.
  apply cross_check_untouched. intros ->. apply Hp.
  unfold stored_paths. apply list_elem_of_fmap. by exists (p, data).
Qed.

(** *** Files the parser fails on *)

(** A file on which the parser raises [yaml.YAMLError] gets one
    [yaml_syntax] error; nothing else changes in the validator, and
    [_validate_file] returns. *)
Lemma yaml_error_file f st :
  content f = YamlError ->
  _validate_file f st = (Ok tt, with_error (path f) "yaml_syntax" st).
Proof.
  intros Hc. unfold _validate_file, validate_file_body, try_except.
  by rewrite Hc.
Qed.

(** A file that the loader turns away with a single error of category [ty]:
    in a run over files with distinct paths, this error is the only
    diagnostic against the file and no document is stored under its
    path. *)
Lemma rejected_file_isolated t syntax_only f ty :
  NoDup (map path (target_files t)) ->
  f ∈ target_files t ->
  (forall st0, _validate_file f st0 = (Ok tt, with_error (path f) ty st0)) ->
  let st := snd (validate_all t syntax_only false init) in
  about (path f) (diagnostics st) = [error_diag (path f) ty] ∧
  path f ∉ stored_paths st.
Proof.
  intros Hnodup Hin Hfile st.
  assert (forall p, t ≠ TargetMissing p) as Ht by (intros p ->; inversion Hin).
  apply list_elem_of_split in Hin as (pre & post & Hfiles).
  rewrite Hfiles, fmap_app, fmap_cons in Hnodup.
  apply NoDup_app in Hnodup as (_ & Hpre & Hpost).
  apply NoDup_cons in Hpost as [Hpost _].
  assert (forall files st0, path f ∉ map path files ->
            untouched (path f) st0 (snd (for_each files _validate_file st0)))
    as Hothers.
  { intros files st0 Hout. apply keeps_for_each_in; [apply _|].
    intros g Hg. apply validate_file_untouched. intros Heq. apply Hout.
    rewrite <- Heq. apply list_elem_of_fmap. by exists g. }
  set (st_pre := snd (for_each pre _validate_file init)).
  set (st_f := with_error (path f) ty st_pre).
  set (st_post := snd (for_each post _validate_file st_f)).
  assert (snd (_validate_syntax t init) = st_post) as Hsyntax.
  { rewrite validate_syntax_files by done. rewrite Hfiles, for_each_app.
    rewrite (bind_ok _ _ _ _ _
      (total_run _ init (for_each_total pre _ validate_file_total))).
    fold st_pre. simpl. by rewrite (bind_ok _ _ _ _ _ (Hfile st_pre)). }
  assert (untouched (path f) init st_pre) as (Hpe & Hpw & Hpf).
  { apply Hothers. intros Hbad. apply (Hpre (path f)); [done|left]. }
  assert (untouched (path f) st_f st_post) as (Hqe & Hqw & Hqf)
    by (apply Hothers; exact Hpost).
  assert (untouched (path f) st_post st) as (Hre & Hrw & Hrf).
  { subst st. rewrite validate_all_state, Hsyntax.
    destruct syntax_only; [reflexivity|].
    apply cross_file_references_untouched. apply Hqf, Hpf. by intros ?%elem_of_nil. }
  split.
  - unfold diagnostics. rewrite about_app, Hre, Hrw, Hqe, Hqw.
    unfold st_f. simpl. rewrite about_app, Hpe, Hpw. simpl.
    unfold about. by rewrite filter_cons_True.
  - apply Hrf, Hqf, Hpf. by intros ?%elem_of_nil.
Qed.

(** What it means for file [f] to be turned away with one error of
    category [ty] in a run that ends in [st]: [_validate_file] records the
    error, changes nothing else in the validator (no name enters the Symbol
    Table, no document is stored) and returns, so that the loop goes on with
    the files that follow; the error is the only diagnostic of the run
    against the file; and no document is stored under the file's path, so
    that the resolver, which walks the stored documents, never looks at
    it. *)
Definition turned_away (f : ps_file) (ty : string) (st : PlayScriptValidator) : Prop :=
  (forall st0, _validate_file f st0 = (Ok tt, with_error (path f) ty st0)) ∧
  (forall rest st0,
     for_each (f :: rest) _validate_file st0
     = for_each rest _validate_file (with_error (path f) ty st0)) ∧
  about (path f) (diagnostics st) = [error_diag (path f) ty] ∧
  path f ∉ stored_paths st.

(** A file that is not well-formed YAML. *)
Definition broken_file : ps_file := mkFile "broken.ps" YamlError.

(** A file that holds [due: 2024-13-45]: the parser accepts the syntax and
    raises [ValueError] when it builds the date. *)
Definition dated_file : ps_file := mkFile "due.ps" ParserError.

(** C5, as stated, fails: the text of the file fails the parser, and the
    one diagnostic of the run is a [file_error], not a [yaml_syntax]. *)
Lemma parser_error_not_yaml_syntax :
  let st := snd (validate_all (AllFiles [dated_file]) false false init) in
  content dated_file = ParserError ∧
  of_type "yaml_syntax" (diagnostics st) = [] ∧
  diagnostics st = [error_diag "due.ps" "file_error"].
Proof. by vm_compute. Qed.

(** C5, amended. In a run over files with distinct paths, a file on which
    the parser raises [yaml.YAMLError] gets exactly one diagnostic, a
    [yaml_syntax] error, and a file on which the parser raises any other
    exception gets exactly one diagnostic, a [file_error] error. In both
    cases the file contributes no name to the Symbol Table, is not added to
    the project document set, undergoes no cross-file check, and the run
    goes on with the remaining files. *)
Theorem parser_failure_isolated t syntax_only f :
  NoDup (map path (target_files t)) ->
  f ∈ target_files t ->
  let st := snd (validate_all t syntax_only false init) in
  (content f = YamlError -> turned_away f "yaml_syntax" st) ∧
  (content f = ParserError -> turned_away f "file_error" st).
Proof.
  intros Hnodup Hin st.
  assert (forall ty,
    (forall st0, _validate_file f st0 = (Ok tt, with_error (path f) ty st0)) ->
    turned_away f ty st) as Hturned.
  { intros ty Hfile. split; [exact Hfile|]. split.
    - intros rest st0. simpl. by rewrite (bind_ok _ _ _ _ _ (Hfile st0)).
    - by apply rejected_file_isolated. }
  split; intros Hc; apply Hturned; intros st0.
  - by apply yaml_error_file.
  - unfold _validate_file, validate_file_body, try_except. by rewrite Hc.
Qed.

Lemma parser_failure_witness :
  let t := AllFiles [contact_schema; broken_file; dated_file; ghost_automation] in
  let st := snd (validate_all t false false init) in
  turned_away broken_file "yaml_syntax" st ∧ turned_away dated_file "file_error" st.
Proof.
  intros t st.
  assert (NoDup (map path (target_files t))) as Hnodup.
  { apply (bool_decide_unpack _). vm_compute. reflexivity. }
  split.
  - refine (proj1 (parser_failure_isolated t false broken_file Hnodup _) _).
    + simpl. right. left.
    + reflexivity.
  - refine (proj2 (parser_failure_isolated t false dated_file Hnodup _) _).
    + simpl. right. right. left.
    + reflexivity.
Defined.

(** ** Names the syntax stage registers *)

(** What follows a step does not matter to a component it leaves alone. *)
Lemma bind_same {A B X} (f : PlayScriptValidator -> X) (m : M A) (k : A -> M B) st :
  (forall a, keeps (same_on f) (k a)) ->
  f (snd (bind m k st)) = f (snd (m st)).
Proof.
  intros Hk. unfold bind. destruct (m st) as [[a|e] st1]; simpl; [|done].
  apply Hk.
Qed.

(** Nor does the handler of [_validate_file], which records a diagnostic. *)
Lemma validate_file_component {X} (f : PlayScriptValidator -> X) g st :
  diag_blind f ->
  f (snd (_validate_file g st)) = f (snd (validate_file_body g st)).
Proof.
  intros [He _]. unfold _validate_file, try_except.
  destruct (validate_file_body g st) as [[[]|e] st1]; simpl; [done|].
  apply He.
Qed.

(** The action name a file declares: the key of the truthy, hashable [name]
    of a document of type [action]. *)
Definition declared_action (f : ps_file) : option key :=
  match content f with
  | Parsed (YMap data) =>
      let name := dict_get data "name" in
      if eq_str (dict_get data "type") "action" && truthy name
      then hash_key name else None
  | _ => None
  end.

(** [_validate_action] registers the name before any check that can fail. *)
Lemma validate_action_names p data st :
  action_names (snd (_validate_action p data st)) =
  if truthy (dict_get data "name")
  then match hash_key (dict_get data "name") with
       | Some k => {[k]} ∪ action_names st
       | None => action_names st
       end
  else action_names st.
Proof.
  unfold _validate_action.
  destruct (check_required_exact p data ["name"; "description"; "implementation"] st)
    as (es & Hreq & _).
  rewrite (bind_ok _ _ _ _ _ Hreq).
  rewrite (bind_same action_names).
  2: { intros _. keeps_go same_leaf. }
  destruct (truthy (dict_get data "name")); simpl; [|done].
  unfold hash, bind. by destruct (hash_key (dict_get data "name")).
Qed.

Lemma eq_str_truthy v : eq_str v "action" = true -> truthy v = true.
Proof.
  destruct v as [| | |s| |]; simpl; try done.
  intros ->%String.eqb_eq. reflexivity.
Qed.

Lemma validate_typed_action_names p data st :
  action_names (snd (validate_typed p data st)) =
  if eq_str (dict_get data "type") "action"
  then action_names (snd (_validate_action p data st))
  else action_names st.
Proof.
  unfold validate_typed.
  destruct (eq_str (dict_get data "type") "action") eqn:Hty.
  - by rewrite (eq_str_truthy _ Hty).
  - repeat case_match; try done;
      first [ by apply (validate_schema_same action_names)
            | by apply (validate_layout_same action_names)
            | by apply (validate_automation_same action_names)
            | by apply (validate_integration_same action_names)
            | by apply (validate_form_same action_names) ].
Qed.

Lemma validate_file_action_names f st :
  action_names (snd (_validate_file f st)) =
  match declared_action f with
  | Some k => {[k]} ∪ action_names st
  | None => action_names st
  end.
Proof.
  rewrite (validate_file_component action_names) by apply action_names_blind.
  unfold validate_file_body, declared_action.
  destruct (content f) as [| | |[| | | | |data]]; try done.
  rewrite (bind_ok _ _ st tt (set_all_files (store (path f) data (all_files st)) st))
    by done.
  rewrite validate_typed_action_names, validate_action_names.
  destruct (eq_str (dict_get data "type") "action"); [|done].
  destruct (truthy (dict_get data "name")); [|done]. simpl.
  by destruct (hash_key (dict_get data "name")).
Qed.

(** After the syntax stage, the action names are the ones the files declare,
    whatever else is wrong with the declaring documents. *)
Lemma syntax_stage_action_names files st :
  action_names (snd (for_each files _validate_file st)) =
  list_to_set (omap declared_action files) ∪ action_names st.
Proof.
  revert st. induction files as [|f files IH]; intros st.
  - simpl. by rewrite union_empty_l_L.
  - rewrite for_each_cons_total by apply validate_file_total.
    rewrite IH, validate_file_action_names. simpl.
    destruct (declared_action f) as [k|]; simpl; [|done].
    rewrite (assoc_L (∪)). f_equal. apply (comm_L (∪)).
Qed.

(** The document a file contributes to the project document set. *)
Definition document (f : ps_file) : option (string * dict) :=
  match content f with
  | Parsed (YMap data) => Some (path f, data)
  | _ => None
  end.

(** After the syntax stage, the stored documents are the top-level mappings
    of the files, in order. *)
Lemma syntax_stage_all_files files st :
  NoDup (map path files) ->
  (forall f, f ∈ files -> path f ∉ stored_paths st) ->
  all_files (snd (for_each files _validate_file st)) =
  all_files st ++ omap document files.
Proof.
  revert st. induction files as [|f files IH]; intros st Hnodup Hfresh.
  - simpl. by rewrite app_nil_r.
  - rewrite for_each_cons_total by apply validate_file_total.
    simpl in Hnodup. apply NoDup_cons in Hnodup as [Hf Hnodup].
    assert (forall g, g ∈ files -> path g ≠ path f) as Hne.
    { intros g Hg Heq. apply Hf. rewrite <- Heq.
      apply list_elem_of_fmap. by exists g. }
    assert (path f ∉ stored_paths st) as Hfst by (apply Hfresh; left).
    rewrite IH; [|done|].
    + rewrite validate_file_all_files. unfold document. simpl.
      destruct (content f) as [| | |[| | | | |data]]; try done.
      rewrite store_fresh by done. by rewrite <- app_assoc.
    + intros g Hg. unfold stored_paths. rewrite validate_file_all_files.
      assert (path g ∉ stored_paths st) as Hgst by (apply Hfresh; by right).
      destruct (content f) as [| | |[| | | | |data]]; try done.
      intros [Heq|Hin]%store_paths; [by apply (Hne g)|done].
Qed.

Lemma document_path f entry : document f = Some entry -> fst entry = path f.
Proof.
  unfold document. destruct (content f) as [| | |[| | | | |data]]; try done.
  by intros [= <-].
Qed.

Lemma documents_paths files p :
  p ∈ map fst (omap document files) -> p ∈ map path files.
Proof.
  intros (entry & -> & Hin)%list_elem_of_fmap.
  apply list_elem_of_omap in Hin as (f & Hf & Hdoc).
  apply document_path in Hdoc as ->. apply list_elem_of_fmap. by exists f.
Qed.

(** ** References the resolver checks *)

(** The resolver leaves the symbol table and the stored documents alone. *)
Lemma cross_checks_same {X} (f : PlayScriptValidator -> X) entries :
  diag_blind f -> keeps (same_on f) (for_each entries cross_check).
Proof.
  intros Hf. apply keeps_for_each; [apply _|]. intros entry.
  by apply cross_check_same.
Qed.

Lemma cross_checks_untouched p entries :
  p ∉ map fst entries -> keeps (untouched p) (for_each entries cross_check).
Proof.
  intros Hp. apply keeps_for_each_in; [apply _|]. intros [q data] Hin.
  apply cross_check_untouched. intros ->. apply Hp.
  apply list_elem_of_fmap. by exists (p, data).
Qed.

(** The syntax stage records no diagnostic of a category the resolver
    reports as an error. *)
Lemma syntax_stage_no_reference_errors files st :
  appends (fun e => error_type e ∉ cross_error_types)
          (fun e => error_type e ∉ cross_error_types)
          st (snd (for_each files _validate_file st)).
Proof.
  revert st. apply keeps_for_each; [apply _|]. intros f.
  eapply keeps_mono; [|apply validate_file_stage].
  intros st st'. apply appends_mono.
  - intros e (_ & _ & Hin) Hbad.
    repeat (apply elem_of_cons in Hin as [Heq|Hin];
            [rewrite Heq in Hbad;
             by refine (not_in_types _ _ _ Hbad); vm_compute|]).
    by apply elem_of_nil in Hin.
  - intros e (_ & _ & Hin) Hbad.
    repeat (apply elem_of_cons in Hin as [Heq|Hin];
            [rewrite Heq in Hbad;
             by refine (not_in_types _ _ _ Hbad); vm_compute|]).
    by apply elem_of_nil in Hin.
Qed.

Lemma cross_check_automation p data st :
  eq_str (dict_get data "type") "automation" = true ->
  cross_check (p, data) st = _validate_automation_references p data st.
Proof. intros Hty. unfold cross_check. by rewrite Hty. Qed.

(** The check of a truthy, hashable [ref]. *)
Lemma automation_reference_check p data ad k st :
  dict_get_default data "action" (YMap []) = YMap ad ->
  truthy (dict_get ad "ref") = true ->
  hash_key (dict_get ad "ref") = Some k ->
  _validate_automation_references p data st =
  (Ok tt, if bool_decide (k ∈ action_names st) then st
          else with_error p "missing_action_reference" st).
Proof.
  intros Hact Hty Hk. unfold _validate_automation_references.
  rewrite Hact, Hty. unfold when, in_action_names, hash, bind, get_state.
  rewrite Hk. simpl. by destruct (bool_decide (k ∈ action_names st)).
Qed.

Lemma of_type_about_none ty p l :
  Forall (fun e => error_type e ≠ ty) l -> of_type ty (about p l) = [].
Proof.
  intros Hl. apply of_type_none. unfold about.
  induction Hl as [|e l He _ IH]; [done|].
  destruct (decide (file_path e = p)).
  - rewrite filter_cons_True by done. by constructor.
  - by rewrite filter_cons_False.
Qed.

Lemma own_diagnostic p ty :
  of_type ty (about p [error_diag p ty]) = [error_diag p ty].
Proof.
  unfold about. rewrite filter_cons_True by done.
  unfold of_type. by rewrite filter_cons_True.
Qed.

(** *** Action references *)

(** An automation whose [ref] is present and empty. *)
Definition blank_ref_automation : ps_file :=
  mkFile "blank_ref.ps" (Parsed (YMap
    [(KStr "type", YStr "automation");
     (KStr "name", YStr "notify_owner");
     (KStr "description", YStr "Notify the owner");
     (KStr "trigger", YMap [(KStr "type", YStr "manual")]);
     (KStr "action", YMap [(KStr "ref", YStr "")])])).

(** C3, as stated, fails: the [action] mapping carries a [ref], no action
    document declares a name, and the full run reports nothing. *)
Lemma blank_ref_not_reported :
  let t := AllFiles [blank_ref_automation] in
  dict_has [(KStr "ref", YStr "")] "ref" = true ∧
  omap declared_action (target_files t) = [] ∧
  fst (validate_all t false false init) = Ok true ∧
  diagnostics (snd (validate_all t false false init)) = [].
Proof. by vm_compute. Qed.

(** The references of an automation in a full run that returns, over files
    with distinct paths: with a truthy, hashable [ref], no
    [missing_action_reference] diagnostic is recorded against the automation
    when some action document of the run declares a truthy [name] equal to
    it, and exactly one, an error, when none does. *)
Lemma reference_in_returned_run t a data ad k b st :
  NoDup (map path (target_files t)) ->
  a ∈ target_files t ->
  content a = Parsed (YMap data) ->
  eq_str (dict_get data "type") "automation" = true ->
  dict_get_default data "action" (YMap []) = YMap ad ->
  truthy (dict_get ad "ref") = true ->
  hash_key (dict_get ad "ref") = Some k ->
  validate_all t false false init = (Ok b, st) ->
  ((exists g, g ∈ target_files t ∧ declared_action g = Some k) ->
   of_type "missing_action_reference" (about (path a) (diagnostics st)) = []) ∧
  ((forall g, g ∈ target_files t -> declared_action g ≠ Some k) ->
   of_type "missing_action_reference" (about (path a) (diagnostics st))
   = [error_diag (path a) "missing_action_reference"]).
Proof.
  intros Hnodup Hin Hc Hty Hact Htruthy Hk Hrun.
  assert (forall p, t ≠ TargetMissing p) as Ht by (intros p ->; inversion Hin).
  set (files := target_files t) in *.
  set (st1 := snd (for_each files _validate_file init)).
  (* the syntax stage *)
  assert (all_files st1 = omap document files) as Hdocs.
  { unfold st1. rewrite syntax_stage_all_files; [done|done|].
    intros f _. by intros ?%elem_of_nil. }
  assert (action_names st1 = list_to_set (omap declared_action files)) as Hnames.
  { unfold st1. rewrite syntax_stage_action_names. simpl.
    by rewrite union_empty_r_L. }
  assert (of_type "missing_action_reference" (about (path a) (errors st1)) = [] ∧
          of_type "missing_action_reference" (about (path a) (warnings st1)) = [])
    as [He1 Hw1].
  { destruct (syntax_stage_no_reference_errors files init)
      as (es & ws & He & Hw & Hes & Hws).
    fold st1 in He, Hw. rewrite He, Hw. simpl.
    split; apply of_type_about_none;
      (eapply Forall_impl; [eassumption|]); intros e Hout Heq; apply Hout;
      rewrite Heq; by left. }
  (* the run *)
  unfold validate_all in Hrun. simpl in Hrun.
  rewrite (bind_ok _ _ _ _ _ (total_run _ init (validate_syntax_total t))) in Hrun.
  rewrite validate_syntax_files in Hrun by done. fold files st1 in Hrun.
  unfold bind at 1 in Hrun.
  rewrite cross_file_references_run, Hdocs in Hrun.
  destruct (for_each (omap document files) cross_check st1)
    as [[[]|e] st2] eqn:Hcross; [|done].
  simpl in Hrun. injection Hrun as _ <-.
  (* the documents before and after the automation *)
  apply list_elem_of_split in Hin as (pre & post & Hfiles).
  rewrite Hfiles, fmap_app, fmap_cons in Hnodup.
  apply NoDup_app in Hnodup as (_ & Hpre & Hpost).
  apply NoDup_cons in Hpost as [Hpost _].
  assert (path a ∉ map fst (omap document pre)) as Hpre'.
  { intros Hbad%documents_paths. apply (Hpre _ Hbad). left. }
  assert (path a ∉ map fst (omap document post)) as Hpost'.
  { by intros Hbad%documents_paths. }
  rewrite Hfiles, omap_app in Hcross. simpl in Hcross.
  unfold document at 2 in Hcross. rewrite Hc in Hcross.
  rewrite for_each_app in Hcross. unfold bind at 1 in Hcross.
  pose proof (cross_checks_untouched _ _ Hpre' st1) as (Hea & Hwa & _).
  pose proof (cross_checks_same action_names (omap document pre)
                action_names_blind st1) as Hna.
  unfold same_on in Hna.
  destruct (for_each (omap document pre) cross_check st1)
    as [[[]|e] sta]; [|done].
  simpl in Hea, Hwa, Hna.
  simpl in Hcross.
  rewrite (bind_ok _ _ _ _ _
    (eq_trans (cross_check_automation (path a) data sta Hty)
       (automation_reference_check (path a) data ad k sta Hact Htruthy Hk)))
    in Hcross.
  match type of Hcross with
  | for_each ?l _ ?s = _ =>
      set (stb := s) in *;
      pose proof (cross_checks_untouched (path a) l Hpost' stb) as (Heb & Hwb & _)
  end.
  rewrite Hcross in Heb, Hwb. simpl in Heb, Hwb.
  unfold diagnostics. rewrite about_app, of_type_app, Heb, Hwb.
  split.
  - intros (g & Hg & Hdecl).
    assert (k ∈ action_names sta) as Hknown.
    { rewrite Hna, Hnames. apply elem_of_list_to_set, list_elem_of_omap.
      by exists g. }
    unfold stb. rewrite bool_decide_eq_true_2 by done.
    by rewrite Hea, Hwa, He1, Hw1.
  - intros Hnone.
    assert (k ∉ action_names sta) as Hunknown.
    { rewrite Hna, Hnames. intros (g & Hg & Hdecl)%elem_of_list_to_set%list_elem_of_omap.
      by apply (Hnone g). }
    unfold stb. rewrite bool_decide_eq_false_2 by done. simpl.
    rewrite about_app, of_type_app, Hea, Hwa, He1, Hw1. simpl.
    by rewrite own_diagnostic.
Qed.

(** [calm p names]: as long as the action names are [names], the
    computation leaves them so and records nothing against file [p]. *)
Definition calm (p : string) (names : gset key) : relation PlayScriptValidator :=
  fun st st' =>
    action_names st = names ->
    action_names st' = names ∧
    about p (errors st') = about p (errors st) ∧
    about p (warnings st') = about p (warnings st).

#[global] Instance calm_preorder p names : PreOrder (calm p names).
Proof.
  split.
  - by intros st Hst.
  - intros a b c Hab Hbc Ha.
    destruct (Hab Ha) as (Hb & He1 & Hw1).
    destruct (Hbc Hb) as (Hc & He2 & Hw2).
    split; [done|]. split; congruence.
Qed.

Lemma cross_check_calm p names q data :
  q ≠ p -> keeps (calm p names) (cross_check (q, data)).
Proof.
  intros Hq st Hst.
  destruct (cross_check_untouched p q data Hq st) as (He & Hw & _).
  split; [|done].
  by rewrite (cross_check_same action_names (q, data) action_names_blind st).
Qed.

(** An automation whose [ref] is falsy, or is the name of a declared
    action, gets no [missing_action_reference] in a full run over files
    with distinct paths, whether or not the run returns. *)
Lemma reference_not_reported t a data ad :
  NoDup (map path (target_files t)) ->
  a ∈ target_files t ->
  content a = Parsed (YMap data) ->
  eq_str (dict_get data "type") "automation" = true ->
  dict_get_default data "action" (YMap []) = YMap ad ->
  (truthy (dict_get ad "ref") = false ∨
   exists k g, truthy (dict_get ad "ref") = true ∧
               hash_key (dict_get ad "ref") = Some k ∧
               g ∈ target_files t ∧ declared_action g = Some k) ->
  of_type "missing_action_reference"
    (about (path a) (diagnostics (snd (validate_all t false false init)))) = [].
Proof.
  intros Hnodup Hin Hc Hty Hact Hquiet.
  assert (forall p, t ≠ TargetMissing p) as Ht by (intros p ->; inversion Hin).
  rewrite validate_all_state.
  assert (snd (_validate_syntax t init)
          = snd (for_each (target_files t) _validate_file init)) as ->
    by (by rewrite validate_syntax_files).
  set (files := target_files t) in *.
  set (st1 := snd (for_each files _validate_file init)).
  assert (all_files st1 = omap document files) as Hdocs.
  { unfold st1. rewrite syntax_stage_all_files; [done|done|].
    intros f _. by intros ?%elem_of_nil. }
  assert (action_names st1 = list_to_set (omap declared_action files)) as Hnames.
  { unfold st1. rewrite syntax_stage_action_names. simpl.
    by rewrite union_empty_r_L. }
  assert (of_type "missing_action_reference" (about (path a) (errors st1)) = [] ∧
          of_type "missing_action_reference" (about (path a) (warnings st1)) = [])
    as [He1 Hw1].
  { destruct (syntax_stage_no_reference_errors files init)
      as (es & ws & He & Hw & Hes & Hws).
    fold st1 in He, Hw. rewrite He, Hw. simpl.
    split; apply of_type_about_none;
      (eapply Forall_impl; [eassumption|]); intros e Hout Heq; apply Hout;
      rewrite Heq; by left. }
  rewrite cross_file_references_run, Hdocs.
  assert (keeps (calm (path a) (action_names st1))
            (for_each (omap document files) cross_check)) as Hcalm.
  { apply list_elem_of_split in Hin as (pre & post & Hfiles).
    rewrite Hfiles, fmap_app, fmap_cons in Hnodup.
    apply NoDup_app in Hnodup as (_ & Hpre & Hpost).
    apply NoDup_cons in Hpost as [Hpost _].
    assert (path a ∉ map fst (omap document pre)) as Hpre'.
    { intros Hbad%documents_paths. apply (Hpre _ Hbad). left. }
    assert (path a ∉ map fst (omap document post)) as Hpost'.
    { by intros Hbad%documents_paths. }
    assert (forall (l : list (string * dict)) q d,
              path a ∉ map fst l -> (q, d) ∈ l -> q ≠ path a)
      as Hother.
    { intros l q d Hout Hqd ->. apply Hout. apply list_elem_of_fmap.
      by exists (path a, d). }
    apply keeps_for_each_in; [apply _|]. intros [q d] Hqd.
    rewrite Hfiles, omap_app in Hqd. simpl in Hqd.
    unfold document at 2 in Hqd. rewrite Hc in Hqd.
    apply elem_of_app in Hqd as [Hqd|Hqd];
      [by apply cross_check_calm, (Hother _ q d Hpre')|].
    apply elem_of_cons in Hqd as [[= -> ->]|Hqd];
      [|by apply cross_check_calm, (Hother _ q d Hpost')].
    intros st Hst. rewrite cross_check_automation by done.
    destruct Hquiet as [Hfalsy|(k & g & Htruthy & Hk & Hg & Hdecl)].
    - unfold _validate_automation_references. by rewrite Hact, Hfalsy.
    - rewrite (automation_reference_check _ _ _ _ _ Hact Htruthy Hk).
      rewrite bool_decide_eq_true_2; [done|].
      rewrite Hst, Hnames. apply elem_of_list_to_set, list_elem_of_omap.
      by exists g. }
  destruct (Hcalm st1 eq_refl) as (_ & He & Hw).
  unfold diagnostics. by rewrite about_app, of_type_app, He, Hw, He1, Hw1.
Qed.

(** C3, amended. In a full run over files with distinct paths, take an
    automation document whose [action] is a mapping or is absent. When its
    [ref] is absent or falsy, no [missing_action_reference] diagnostic is
    recorded against the automation. When its [ref] is truthy and hashable
    and some action document of the run declares a truthy [name] equal to it
    (whatever else is wrong with that document), none is recorded either.
    Both hold whether or not the run returns. When the [ref] is truthy and
    hashable, no action document declares it and the run returns, exactly
    one is recorded, and it is an error. *)
Theorem action_reference_resolution t a data ad :
  NoDup (map path (target_files t)) ->
  a ∈ target_files t ->
  content a = Parsed (YMap data) ->
  eq_str (dict_get data "type") "automation" = true ->
  dict_get_default data "action" (YMap []) = YMap ad ->
  let run := validate_all t false false init in
  let reported :=
    of_type "missing_action_reference" (about (path a) (diagnostics (snd run))) in
  (truthy (dict_get ad "ref") = false -> reported = []) ∧
  (forall k,
     truthy (dict_get ad "ref") = true ->
     hash_key (dict_get ad "ref") = Some k ->
     ((exists g, g ∈ target_files t ∧ declared_action g = Some k) ->
      reported = []) ∧
     ((forall g, g ∈ target_files t -> declared_action g ≠ Some k) ->
      (exists b, fst run = Ok b) ->
      reported = [error_diag (path a) "missing_action_reference"])).
Proof.
  intros Hnodup Hin Hc Hty Hact run reported. split.
  - intros Hfalsy. apply (reference_not_reported t a data ad); auto.
  - intros k Htruthy Hk. split.
    + intros (g & Hg & Hdecl).
      apply (reference_not_reported t a data ad); try done.
      right. by exists k, g.
    + intros Hnone [b Hb].
      assert (run = (Ok b, snd run)) as Hrun.
      { destruct run as [r st]. simpl in Hb. by subst r. }
      by apply (proj2 (reference_in_returned_run t a data ad k b (snd run)
                         Hnodup Hin Hc Hty Hact Htruthy Hk Hrun)).
Qed.

Lemma action_reference_witness :
  let t := AllFiles [ghost_automation] in
  of_type "missing_action_reference"
    (about "ghost_automation.ps" (diagnostics (snd (validate_all t false false init))))
  = [error_diag "ghost_automation.ps" "missing_action_reference"].
Proof.
  intros t.
  refine (proj2 (proj2 (action_reference_resolution t ghost_automation _
    [(KStr "ref", YStr "ghost.action")] _ _ _ _ _) (KStr "ghost.action") _ _) _ _).
  - apply (bool_decide_unpack _). vm_compute. reflexivity.
  - simpl. left.
  - reflexivity.
  - reflexivity.
  - reflexivity.
  - reflexivity.
  - reflexivity.
  - intros g Hg. simpl in Hg. apply list_elem_of_singleton in Hg. subst g.
    vm_compute. discriminate.
  - exists false. vm_compute. reflexivity.
Defined.

(** ** Fields a schema document registers *)














Lemma eq_str_eq v s : eq_str v s = true -> v = YStr s.
Proof.
  destruct v as [| | |s'| |]; simpl; try done. by intros ->%String.eqb_eq.
Qed.


(** The object a file declares: the key of the truthy, hashable [object] of
    a document of type [schema]. *)
Definition declared_object (f : ps_file) : option key :=
  match content f with
  | Parsed (YMap data) =>
      let object_name := dict_get data "object" in
      if eq_str (dict_get data "type") "schema" && truthy object_name
      then hash_key object_name else None
  | _ => None
  end.

(** The field set registered for object [ko]. *)
Definition fields_of (ko : key) (st : PlayScriptValidator) : option (gset key) :=
  schema_fields st !! ko.

Lemma fields_of_blind ko : diag_blind (fields_of ko).
Proof. by split. Qed.



Ltac other_go leaf :=
  repeat (unfold hash, startswith; cbv beta iota zeta; keeps_step leaf).





(** *** Field registration *)

(** A second declaration of [contact] in its own file. *)
Definition contact_again : ps_file :=
  mkFile "contact_again.ps" (Parsed (YMap contact_redeclared)).



(** A schema that lists [email] twice. *)
Definition lead_fields : list yaml :=
  [YMap [(KStr "name", YStr "email"); (KStr "type", YStr "email")];
   YMap [(KStr "name", YStr "phone")];
   YMap [(KStr "name", YStr "email"); (KStr "type", YStr "string")]].

Definition lead_schema : ps_file :=
  mkFile "lead_schema.ps" (Parsed (YMap
    [(KStr "type", YStr "schema");
     (KStr "object", YStr "lead");
     (KStr "description", YStr "A lead");
     (KStr "fields", YList lead_fields)])).


(** * Further properties of the validator *)

(** ** Required keys *)

(** The required keys a mapping lacks, in the order they are listed. *)
Definition absent_keys (data : dict) (required_fields : list string) : list string :=
  List.filter (fun field => negb (dict_has data field)) required_fields.

(** [_check_required_fields] as a function of the keys the mapping
    lacks. *)
Lemma check_required_report p data required_fields st :
  _check_required_fields p data required_fields st
  = (Ok tt,
     set_errors
       (errors st ++ map (fun _ => error_diag p "missing_required_field")
                         (absent_keys data required_fields)) st).
Proof.
  unfold _check_required_fields, absent_keys. revert st.
  induction required_fields as [|field rest IH]; intros st; simpl.
  - by rewrite set_errors_same.
  - destruct (dict_has data field); simpl.
    + rewrite (bind_ok _ _ st tt st) by done. apply IH.
    + rewrite (bind_ok _ _ st tt (with_error p "missing_required_field" st))
        by done.
      rewrite IH. f_equal. unfold with_error, set_errors. simpl.
      by rewrite <- app_assoc.
Qed.

(** X1. [_check_required_fields] never raises and records exactly one
    [missing_required_field] error per listed key the mapping lacks, in the
    order of the list, changing nothing else; only the presence of the key
    counts, so a key with a null or empty value is not reported. *)
Theorem required_fields_report p data required_fields st :
  _check_required_fields p data required_fields st
  = (Ok tt,
     set_errors
       (errors st ++ map (fun _ => error_diag p "missing_required_field")
                         (absent_keys data required_fields)) st) ∧
  forall field v,
    dict_lookup data (KStr field) = Some v -> field ∉ absent_keys data required_fields.
Proof.
  split; [apply check_required_report|].
  intros field v Hv Hin. unfold absent_keys in Hin.
  apply list_elem_of_In, filter_In in Hin as [_ Hin].
  unfold dict_has in Hin. by rewrite Hv in Hin.
Qed.

Lemma required_fields_witness :
  let data := [(KStr "name", YStr "lead.create"); (KStr "description", YNull)] in
  dict_lookup data (KStr "description") = Some YNull ∧
  "description" ∉ absent_keys data ["name"; "description"; "implementation"].
Proof.
  intros data.
  assert (dict_lookup data (KStr "description") = Some YNull) as Hv by reflexivity.
  split; [exact Hv|].
  exact (proj2 (required_fields_report "lead.ps" data
                  ["name"; "description"; "implementation"] init)
               "description" YNull Hv).
Defined.

(** ** Phase 1 does not raise *)

(** X2. No exception leaves [_validate_file]: whatever the file holds, it
    returns, and when reading or validating the file raises, one
    [file_error] error is added to what had been recorded. Hence a
    syntax-only run always returns a verdict. *)
Theorem syntax_stage_never_raises :
  (forall f st, fst (_validate_file f st) = Ok tt) ∧
  (forall f st e st1,
     validate_file_body f st = (Raise e, st1) ->
     _validate_file f st = (Ok tt, with_error (path f) "file_error" st1)) ∧
  (forall f st,
     content f = ReadError ->
     _validate_file f st = (Ok tt, with_error (path f) "file_error" st)) ∧
  (forall t st, exists b, fst (validate_all t true false st) = Ok b).
Proof.
  split; [|split; [|split]].
  - intros f st. unfold _validate_file, try_except.
    by destruct (validate_file_body f st) as [[[]|e] st1].
  - intros f st e st1 Hbody. unfold _validate_file, try_except. by rewrite Hbody.
  - intros f st Hc. unfold _validate_file, try_except, validate_file_body.
    by rewrite Hc.
  - intros t st. unfold validate_all. simpl.
    rewrite (bind_ok _ _ _ _ _ (total_run _ st (validate_syntax_total t))).
    eexists. reflexivity.
Qed.

(** A schema whose [object] is a sequence: registering it raises. *)
Definition list_object_schema : ps_file :=
  mkFile "list_object.ps" (Parsed (YMap
    [(KStr "type", YStr "schema");
     (KStr "object", YList [YStr "contact"]);
     (KStr "description", YStr "A contact");
     (KStr "fields", YList [])])).

Lemma syntax_stage_witness :
  _validate_file list_object_schema init
  = (Ok tt, with_error "list_object.ps" "file_error"
              (set_all_files (all_files (snd (validate_file_body list_object_schema init)))
                 init)).
Proof.
  refine (proj1 (proj2 syntax_stage_never_raises) list_object_schema init
            TypeError _ _).
  vm_compute. reflexivity.
Defined.

(** ** Diagnostics are only appended *)

(** X3. A run never removes or reorders a diagnostic: whatever the flags
    and the starting validator, and whether or not the run returns, the
    lists of errors and warnings afterwards extend the lists before, by
    diagnostics of severity [error] and of severity [warning]
    respectively. *)
Theorem run_appends_diagnostics t syntax_only cross_file_only st0 :
  let st := snd (validate_all t syntax_only cross_file_only st0) in
  exists es ws,
    errors st = errors st0 ++ es ∧
    warnings st = warnings st0 ++ ws ∧
    Forall (fun e => severity_of e = SevError) es ∧
    Forall (fun e => severity_of e = SevWarning) ws.
Proof. apply (validate_all_severities t syntax_only cross_file_only st0). Qed.

(** ** The verdict on a fresh validator *)

(** X4. When a run on a fresh validator returns, the verdict is [True]
    exactly when no recorded diagnostic has severity [error]; warnings do
    not count. *)
Theorem verdict_counts_errors_only t syntax_only cross_file_only b st :
  validate_all t syntax_only cross_file_only init = (Ok b, st) ->
  b = true <-> Forall (fun e => severity_of e ≠ SevError) (diagnostics st).
Proof.
  intros Hrun.
  rewrite (validate_all_verdict _ _ _ _ _ _ Hrun).
  destruct (fresh_run_severities t syntax_only cross_file_only st) as [He Hw].
  { by rewrite Hrun. }
  unfold diagnostics. split.
  - intros ->. simpl. eapply Forall_impl; [exact Hw|].
    intros e Hsev. by rewrite Hsev.
  - intros Hall. apply Forall_app in Hall as [Hall _].
    destruct (errors st) as [|e es]; [done|].
    apply Forall_cons in Hall as [Hne _]. apply Forall_cons in He as [Heq _].
    done.
Qed.

Lemma verdict_witness :
  let t := AllFiles [ghost_automation] in
  let st := snd (validate_all t false false init) in
  false = true <-> Forall (fun e => severity_of e ≠ SevError) (diagnostics st).
Proof.
  intros t st.
  apply (verdict_counts_errors_only t false false false st).
  vm_compute. reflexivity.
Defined.

(** ** The resolver only reads *)

Lemma resolver_same_tables st :
  let st' := snd (_validate_cross_file_references st) in
  schema_objects st' = schema_objects st ∧
  schema_fields st' = schema_fields st ∧
  action_names st' = action_names st ∧
  integration_names st' = integration_names st ∧
  all_files st' = all_files st.
Proof.
  intros st'. subst st'. rewrite cross_file_references_run.
  repeat split.
  - by apply (cross_checks_same schema_objects).
  - by apply (cross_checks_same schema_fields).
  - by apply (cross_checks_same action_names).
  - by apply (cross_checks_same integration_names).
  - by apply (cross_checks_same all_files).
Qed.

(** X5. The resolver never changes the Symbol Table or the stored
    documents: schema objects, field sets, action names, integration names
    and [all_files] are after [_validate_cross_file_references] what they
    were before, also when it raises. *)
Theorem resolver_keeps_symbol_table st :
  let st' := snd (_validate_cross_file_references st) in
  schema_objects st' = schema_objects st ∧
  schema_fields st' = schema_fields st ∧
  action_names st' = action_names st ∧
  integration_names st' = integration_names st ∧
  all_files st' = all_files st.
Proof. apply resolver_same_tables. Qed.

(** ** A target that does not exist *)

(** X6. A target that is neither a [.ps] file nor a directory: the run on a
    fresh validator records one [file_not_found] error against the target,
    loads nothing, returns [False], and [main] exits with status 1. *)
Theorem missing_target_fails p syntax_only :
  validate_all (TargetMissing p) syntax_only false init
  = (Ok false, with_error p "file_not_found" init) ∧
  main (TargetMissing p) syntax_only false
  = (1, with_error p "file_not_found" init).
Proof. by destruct syntax_only. Qed.

(** ** The Symbol Table after a run *)

(** The integration name a file declares: the key of the truthy, hashable
    [name] of a document of type [integration]. *)
Definition declared_integration (f : ps_file) : option key :=
  match content f with
  | Parsed (YMap data) =>
      let name := dict_get data "name" in
      if eq_str (dict_get data "type") "integration" && truthy name
      then hash_key name else None
  | _ => None
  end.

(** A set of names that each file extends by the name it declares holds,
    after the syntax stage, the names the files declare. *)
Lemma syntax_stage_registers (names : PlayScriptValidator -> gset key)
    (declared : ps_file -> option key) files st :
  (forall f st0,
     names (snd (_validate_file f st0)) =
     match declared f with
     | Some k => {[k]} ∪ names st0
     | None => names st0
     end) ->
  names (snd (for_each files _validate_file st)) =
  list_to_set (omap declared files) ∪ names st.
Proof.
  intros Hfile. revert st. induction files as [|f files IH]; intros st.
  - simpl. by rewrite union_empty_l_L.
  - rewrite for_each_cons_total by apply validate_file_total.
    rewrite IH, Hfile. simpl.
    destruct (declared f) as [k|]; simpl; [|done].
    rewrite (assoc_L (∪)). f_equal. apply (comm_L (∪)).
Qed.

Lemma integration_names_blind : diag_blind integration_names.
Proof. by split. Qed.

Lemma schema_objects_blind : diag_blind schema_objects.
Proof. by split. Qed.

Lemma validate_integration_names p data st :
  integration_names (snd (_validate_integration p data st)) =
  if truthy (dict_get data "name")
  then match hash_key (dict_get data "name") with
       | Some k => {[k]} ∪ integration_names st
       | None => integration_names st
       end
  else integration_names st.
Proof.
  unfold _validate_integration.
  destruct (check_required_exact p data ["name"; "service"; "description"] st)
    as (es & Hreq & _).
  rewrite (bind_ok _ _ _ _ _ Hreq).
  destruct (truthy (dict_get data "name")); simpl; [|done].
  unfold hash, bind. by destruct (hash_key (dict_get data "name")).
Qed.

Lemma validate_file_integration_names f st :
  integration_names (snd (_validate_file f st)) =
  match declared_integration f with
  | Some k => {[k]} ∪ integration_names st
  | None => integration_names st
  end.
Proof.
  rewrite (validate_file_component integration_names)
    by apply integration_names_blind.
  unfold validate_file_body, declared_integration.
  destruct (content f) as [| | |[| | | | |data]]; try done.
  rewrite (bind_ok _ _ st tt (set_all_files (store (path f) data (all_files st)) st))
    by done.
  unfold validate_typed.
  destruct (eq_str (dict_get data "type") "integration") eqn:Hty.
  - rewrite (eq_str_eq _ _ Hty). simpl. rewrite validate_integration_names.
    destruct (truthy (dict_get data "name")); [|done].
    by destruct (hash_key (dict_get data "name")).
  - cbn [andb]. repeat case_match; try done;
      first [ by refine (validate_action_same integration_names _ _ _ _ _)
            | by refine (validate_schema_same integration_names _ _ _ _ _ _)
            | by refine (validate_layout_same integration_names _ _ _ _)
            | by refine (validate_automation_same integration_names _ _ _ _)
            | by refine (validate_form_same integration_names _ _ _ _) ].
Qed.

Lemma validate_schema_objects p data st :
  schema_objects (snd (_validate_schema p data st)) =
  if truthy (dict_get data "object")
  then match hash_key (dict_get data "object") with
       | Some k => {[k]} ∪ schema_objects st
       | None => schema_objects st
       end
  else schema_objects st.
Proof.
  unfold _validate_schema.
  destruct (check_required_exact p data ["object"; "description"; "fields"] st)
    as (es & Hreq & _).
  rewrite (bind_ok _ _ _ _ _ Hreq).
  rewrite (bind_same schema_objects).
  2: { intros _. destruct (dict_get_default data "fields" (YList []));
         try same_leaf.
       apply schema_fields_loop_keeps; [apply _|]. intros field names.
       unfold schema_field_step. keeps_go same_leaf. }
  destruct (truthy (dict_get data "object")); simpl; [|done].
  unfold hash, bind. by destruct (hash_key (dict_get data "object")).
Qed.

Lemma validate_file_schema_objects f st :
  schema_objects (snd (_validate_file f st)) =
  match declared_object f with
  | Some k => {[k]} ∪ schema_objects st
  | None => schema_objects st
  end.
Proof.
  rewrite (validate_file_component schema_objects) by apply schema_objects_blind.
  unfold validate_file_body, declared_object.
  destruct (content f) as [| | |[| | | | |data]]; try done.
  rewrite (bind_ok _ _ st tt (set_all_files (store (path f) data (all_files st)) st))
    by done.
  unfold validate_typed.
  destruct (eq_str (dict_get data "type") "schema") eqn:Hty.
  - rewrite (eq_str_eq _ _ Hty). simpl. rewrite validate_schema_objects.
    destruct (truthy (dict_get data "object")); [|done].
    by destruct (hash_key (dict_get data "object")).
  - cbn [andb]. repeat case_match; try done;
      first [ by refine (validate_action_same schema_objects _ _ _ _ _)
            | by refine (validate_integration_same schema_objects _ _ _ _ _)
            | by refine (validate_layout_same schema_objects _ _ _ _)
            | by refine (validate_automation_same schema_objects _ _ _ _)
            | by refine (validate_form_same schema_objects _ _ _ _) ].
Qed.

(** The validator the syntax stage leaves behind, for every target. *)
Lemma validate_syntax_component {X} (f : PlayScriptValidator -> X) t st :
  diag_blind f ->
  f (snd (_validate_syntax t st)) =
  f (snd (for_each (target_files t) _validate_file st)).
Proof.
  intros [He _]. destruct t as [files|g|files|p]; simpl; try done.
  by rewrite (bind_ok _ _ _ _ _ (total_run _ st (validate_file_total g))).
Qed.

(** The names a run registers. *)
Lemma registered_after_run t syntax_only :
  let st := snd (validate_all t syntax_only false init) in
  action_names st = list_to_set (omap declared_action (target_files t)) ∧
  integration_names st = list_to_set (omap declared_integration (target_files t)) ∧
  schema_objects st = list_to_set (omap declared_object (target_files t)).
Proof.
  intros st.
  assert (forall (f : PlayScriptValidator -> gset key), diag_blind f ->
            f st = f (snd (for_each (target_files t) _validate_file init)))
    as Hst.
  { intros f Hf. unfold st. rewrite validate_all_state.
    destruct syntax_only.
    - by apply validate_syntax_component.
    - rewrite cross_file_references_run.
      rewrite (cross_checks_same f _ Hf). by apply validate_syntax_component. }
  repeat split.
  - rewrite (Hst action_names action_names_blind).
    rewrite (syntax_stage_registers action_names declared_action)
      by apply validate_file_action_names.
    apply union_empty_r_L.
  - rewrite (Hst integration_names integration_names_blind).
    rewrite (syntax_stage_registers integration_names declared_integration)
      by apply validate_file_integration_names.
    apply union_empty_r_L.
  - rewrite (Hst schema_objects schema_objects_blind).
    rewrite (syntax_stage_registers schema_objects declared_object)
      by apply validate_file_schema_objects.
    apply union_empty_r_L.
Qed.

(** X7. After a run that includes the syntax stage, started on a fresh
    validator, the Symbol Table holds exactly the names the validated files
    declare: an action, integration or schema object is known if and only
    if some file is a mapping of that type whose [name] (or [object]) is
    truthy and hashable, whatever else is wrong with that document, and
    whether or not the resolver ran or raised. *)
Theorem symbol_table_after_run t syntax_only :
  let st := snd (validate_all t syntax_only false init) in
  action_names st = list_to_set (omap declared_action (target_files t)) ∧
  integration_names st = list_to_set (omap declared_integration (target_files t)) ∧
  schema_objects st = list_to_set (omap declared_object (target_files t)).
Proof. apply registered_after_run. Qed.

(** ** The summary *)

(** The four counts of the summary block that [_print_results] prints. *)
Record summary : Type := mkSummary {
  files_validated : nat;
  schemas_found : nat;
  actions_found : nat;
  integrations_found : nat
}.

Definition summary_of (st : PlayScriptValidator) : summary :=
  mkSummary (List.length (all_files st)) (size (schema_objects st))
    (size (action_names st)) (size (integration_names st)).

(** X8. In the summary of a run that includes the syntax stage, over files
    with distinct paths and on a fresh validator, "Files validated" counts
    the files whose content parsed to a mapping (files that could not be
    read or parsed, or that hold a list or a scalar, are not counted;
    documents without a type or with failing checks are), and the other
    three counts are the numbers of distinct declared names. *)
Theorem summary_counts t syntax_only :
  NoDup (map path (target_files t)) ->
  summary_of (snd (validate_all t syntax_only false init)) =
  mkSummary
    (List.length (omap document (target_files t)))
    (size (list_to_set (omap declared_object (target_files t)) : gset key))
    (size (list_to_set (omap declared_action (target_files t)) : gset key))
    (size (list_to_set (omap declared_integration (target_files t)) : gset key)).
Proof.
  intros Hnodup. unfold summary_of.
  destruct (registered_after_run t syntax_only) as (-> & -> & ->).
  f_equal.
  assert (all_files (snd (validate_all t syntax_only false init))
          = all_files (snd (for_each (target_files t) _validate_file init)))
    as ->.
  { rewrite validate_all_state. destruct syntax_only.
    - by apply validate_syntax_component, all_files_blind.
    - rewrite cross_file_references_run.
      rewrite (cross_checks_same all_files _ all_files_blind).
      by apply validate_syntax_component, all_files_blind. }
  rewrite syntax_stage_all_files; [done|done|].
  intros f _. by intros ?%elem_of_nil.
Qed.

Lemma summary_witness :
  summary_of (snd (validate_all
    (AllFiles [contact_schema; broken_file; blank_fields_layout;
               mkFile "notes.ps" (Parsed (YList []))]) true false init))
  = mkSummary 2 1 0 0.
Proof.
  refine (eq_trans (summary_counts _ true _) _).
  - apply (bool_decide_unpack _). vm_compute. reflexivity.
  - vm_compute. reflexivity.
Defined.

(** ** Schema objects and their field sets *)

(** Every registered schema object has a field set, and only those have. *)
Definition table_consistent (st : PlayScriptValidator) : Prop :=
  dom (schema_fields st) = schema_objects st.

Definition keeps_consistent : relation PlayScriptValidator :=
  fun st st' => table_consistent st -> table_consistent st'.

#[global] Instance keeps_consistent_preorder : PreOrder keeps_consistent.
Proof.
  split.
  - intros st Hst. exact Hst.
  - intros a b c Hab Hbc Ha. apply Hbc, Hab, Ha.
Qed.

Lemma consistent_same st st' :
  schema_fields st' = schema_fields st ->
  schema_objects st' = schema_objects st ->
  keeps_consistent st st'.
Proof. unfold keeps_consistent, table_consistent. by intros -> ->. Qed.

Ltac consistent_leaf :=
  lazymatch goal with
  | |- keeps _ (add_error _ _) => unfold add_error
  | |- keeps _ (add_warning _ _) => unfold add_warning
  | |- keeps _ (modify _) => idtac
  end;
  apply keeps_modify; intros; apply consistent_same; reflexivity.

Lemma add_schema_field_consistent o kf :
  keeps keeps_consistent (add_schema_field o kf).
Proof.
  intros st. unfold add_schema_field, hash, bind, get_state.
  destruct (hash_key o) as [ko|]; simpl; [|reflexivity].
  destruct (schema_fields st !! ko) as [known|] eqn:Hknown; simpl; [|reflexivity].
  unfold keeps_consistent, table_consistent. simpl. intros <-.
  rewrite dom_insert_L. apply subseteq_union_1_L.
  intros k ->%elem_of_singleton. by apply elem_of_dom_2 in Hknown.
Qed.

Lemma validate_schema_consistent p data :
  keeps keeps_consistent (_validate_schema p data).
Proof.
  unfold _validate_schema.
  apply keeps_bind; [apply _ | | intros _].
  { unfold _check_required_fields. other_go consistent_leaf. }
  apply keeps_bind; [apply _ | | intros _].
  { intros st. unfold when, hash, bind, modify.
    destruct (truthy (dict_get data "object")); [|reflexivity].
    destruct (hash_key (dict_get data "object")) as [ko|]; [|reflexivity].
    unfold keeps_consistent, table_consistent. simpl. intros <-.
    apply dom_insert_L. }
  destruct (dict_get_default data "fields" (YList [])); try consistent_leaf.
  apply schema_fields_loop_keeps; [apply _|]. intros field names.
  unfold schema_field_step.
  other_go ltac:(first [ apply add_schema_field_consistent | consistent_leaf ]).
Qed.

Definition schema_tables (st : PlayScriptValidator) : gmap key (gset key) * gset key :=
  (schema_fields st, schema_objects st).

Lemma schema_tables_blind : diag_blind schema_tables.
Proof. by split. Qed.

Lemma same_tables_consistent st st' :
  same_on schema_tables st st' -> keeps_consistent st st'.
Proof. unfold same_on, schema_tables. intros [= ? ?]. by apply consistent_same. Qed.

Lemma validate_file_consistent f : keeps keeps_consistent (_validate_file f).
Proof.
  unfold _validate_file, validate_file_body.
  apply keeps_try_except; [apply _ | | intros _; consistent_leaf].
  destruct (content f) as [| | |[| | | | |data]];
    try first [ apply keeps_raise; apply _ | consistent_leaf ].
  apply keeps_bind; [apply _ | consistent_leaf | intros _].
  unfold validate_typed. repeat case_match; try consistent_leaf;
    first [ apply validate_schema_consistent
          | eapply keeps_mono; [apply same_tables_consistent|];
            first [ by apply validate_action_same
                  | by apply validate_integration_same
                  | by apply validate_layout_same
                  | by apply validate_automation_same
                  | by apply validate_form_same ] ].
Qed.

(** X9. Every run keeps the two schema tables in step: if, before the run,
    the objects that have a field set are exactly the registered schema
    objects, the same holds afterwards, whatever the flags and whether or
    not the run returns. In particular it holds after every run on a fresh
    validator. *)
Theorem schema_tables_in_step t syntax_only cross_file_only st0 :
  dom (schema_fields st0) = schema_objects st0 ->
  let st := snd (validate_all t syntax_only cross_file_only st0) in
  dom (schema_fields st) = schema_objects st.
Proof.
  intros H0 st.
  assert (keeps keeps_consistent (validate_all t syntax_only cross_file_only))
    as Hkeeps; [|by apply (Hkeeps st0)].
  unfold validate_all.
  keeps_go ltac:(idtac).
  - destruct t; simpl; try consistent_leaf;
      try (apply keeps_for_each; [apply _|]; intros f);
      apply validate_file_consistent.
  - unfold _validate_cross_file_references.
    apply keeps_bind; [apply _ | apply keeps_get_state; apply _ | intros st1].
    eapply keeps_mono; [apply same_tables_consistent|].
    by apply cross_checks_same, schema_tables_blind.
Qed.

Lemma schema_tables_witness :
  let st := snd (validate_all (AllFiles [lead_schema; contact_schema; contact_again])
                   false false init) in
  dom (schema_fields st) = schema_objects st.
Proof.
  apply (schema_tables_in_step _ false false init). reflexivity.
Defined.

(** ** Integration references *)




(** ** Unqualified field references *)



(** ** The [ref] of an automation in phase 1 *)




(** ** Schema references *)







(** ** How the two stages compose *)

(** What the resolver does to the diagnostics, whatever the document. *)
Definition resolver_stage (paths : list string) : relation PlayScriptValidator :=
  appends (fun e => error_type e ∈ cross_error_types ∧ file_path e ∈ paths)
          (fun e => error_type e ∈ cross_warning_types ∧ file_path e ∈ paths).

Lemma cross_check_resolver_stage paths p data :
  p ∈ paths -> keeps (resolver_stage paths) (cross_check (p, data)).
Proof.
  intros Hp. eapply keeps_mono; [|apply cross_check_stage].
  intros st st'. apply appends_mono; by intros e (-> & _ & ?).
Qed.

(** X14. A full run is the syntax-only run followed by the resolver: on the
    same files and from the same validator, the full run leaves the Symbol
    Table and the stored documents of the syntax-only run, and its errors
    and warnings are those of the syntax-only run, in the same order,
    followed by reference diagnostics against stored documents. *)
Theorem full_run_extends_syntax_only t st0 :
  let s := snd (validate_all t true false st0) in
  let f := snd (validate_all t false false st0) in
  (schema_objects f = schema_objects s ∧ schema_fields f = schema_fields s ∧
   action_names f = action_names s ∧ integration_names f = integration_names s ∧
   all_files f = all_files s) ∧
  exists es ws,
    errors f = errors s ++ es ∧ warnings f = warnings s ++ ws ∧
    Forall (fun e => error_type e ∈ cross_error_types
                     ∧ file_path e ∈ stored_paths s) es ∧
    Forall (fun e => error_type e = "missing_schema_reference"
                     ∧ file_path e ∈ stored_paths s) ws.
Proof.
  intros s f. unfold s, f. rewrite !validate_all_state. split.
  - apply resolver_same_tables.
  - rewrite cross_file_references_run.
    set (s1 := snd (_validate_syntax t st0)).
    assert (keeps (resolver_stage (stored_paths s1))
              (for_each (all_files s1) cross_check)) as Hkeeps.
    { apply keeps_for_each_in; [apply _|]. intros [p data] Hin.
      apply cross_check_resolver_stage. unfold stored_paths.
      apply list_elem_of_fmap. by exists (p, data). }
    destruct (Hkeeps s1) as (es & ws & He & Hw & Hes & Hws).
    exists es, ws. repeat split; try done.
    eapply Forall_impl; [exact Hws|]. intros e [Hty ?]. split; [|done].
    by apply list_elem_of_singleton in Hty.
Qed.

(** X15. A syntax-only run on a fresh validator reports only the
    categories of the loader and of the per-type validators, or
    [file_not_found]: it never reports a reference category, and its
    warnings are [unknown_field_type] and [unknown_type] only. *)
Theorem syntax_only_categories t :
  let st := snd (validate_all t true false init) in
  Forall (fun e => error_type e ∈ typed_error_types ++ loader_error_types
                                   ++ ["file_not_found"]) (errors st) ∧
  Forall (fun e => error_type e ∈ typed_warning_types) (warnings st).
Proof.
  intros st. unfold st. rewrite validate_all_state.
  assert (keeps (appends
            (fun e => error_type e ∈ typed_error_types ++ loader_error_types
                                     ++ ["file_not_found"])
            (fun e => error_type e ∈ typed_warning_types))
            (_validate_syntax t)) as Hkeeps.
  { assert (forall f, keeps (appends
            (fun e => error_type e ∈ typed_error_types ++ loader_error_types
                                     ++ ["file_not_found"])
            (fun e => error_type e ∈ typed_warning_types)) (_validate_file f))
      as Hfile.
    { intros f. eapply keeps_mono; [|apply validate_file_stage].
      intros s s'. apply appends_mono.
      - intros e (_ & _ & [Hin|Hin]%elem_of_app); apply elem_of_app;
          [by left | right; apply elem_of_app; by left].
      - by intros e (_ & _ & Hin). }
    destruct t; simpl; try (apply keeps_for_each; [apply _|]); try done.
    apply keeps_add_error. apply (bool_decide_unpack _). by vm_compute. }
  destruct (Hkeeps init) as (es & ws & -> & -> & Hes & Hws). done.
Qed.

(** ** Validating a single file *)



(** ** Documents of an unknown type *)





(** ** Runs the resolver aborts *)

(** Values that cannot be iterated. *)
Definition non_iterable (v : yaml) : bool :=
  match v with
  | YNull | YBool _ | YInt _ => true
  | YStr _ | YList _ | YMap _ => false
  end.

(** A stored document on which the resolver raises, whatever the
    validator. *)
Definition aborts (entry : string * dict) : Prop :=
  forall st, exists e, fst (cross_check entry st) = Raise e.

Lemma for_each_aborts entries entry :
  entry ∈ entries -> aborts entry ->
  forall st, exists e, fst (for_each entries cross_check st) = Raise e.
Proof.
  intros Hin Habort. induction Hin as [entry rest|entry other rest Hin IH];
    intros st; simpl; unfold bind.
  - destruct (Habort st) as [e He].
    destruct (cross_check entry st) as [[[]|?] ?]; simpl in *; [done|eauto].
  - destruct (cross_check other st) as [[[]|?] ?]; simpl; [by apply IH|eauto].
Qed.

(** A layout raises [TypeError] in the resolver when [components], or
    the [fields] of its first component, cannot be iterated. *)
Lemma layout_raises p data st :
  eq_str (dict_get data "type") "layout" = true ->
  (non_iterable (dict_get_default data "components" (YList [])) = true ->
   exists e, fst (cross_check (p, data) st) = Raise e) ∧
  (forall cd rest,
     dict_get_default data "components" (YList []) = YList (YMap cd :: rest) ->
     non_iterable (dict_get_default cd "fields" (YList [])) = true ->
     exists e, fst (cross_check (p, data) st) = Raise e).
Proof.
  intros Hty. apply eq_str_eq in Hty. unfold cross_check. rewrite Hty. simpl.
  unfold _validate_layout_references.
  assert (forall (k : M unit),
    (forall st1, exists e, fst (k st1) = Raise e) ->
    exists e,
      fst ((when (truthy (dict_get data "name"))
              (known <- in_schema_objects (dict_get data "name") ;;
               when (negb known) (add_warning p "missing_schema_reference")) ;;
            k) st) = Raise e) as Hprefix.
  { intros k Hk. unfold bind at 1.
    destruct (when (truthy (dict_get data "name")) _ st) as [[[]|e] st1]; simpl;
      [apply Hk | by exists e]. }
  split.
  - intros Hnot. apply Hprefix. intros st1.
    destruct (dict_get_default data "components" (YList [])); try done;
      by exists TypeError.
  - intros cd rest -> Hnot. apply Hprefix. intros st1. simpl.
    rewrite (bind_ok _ _ st1 (YMap cd :: rest) st1) by done. simpl.
    destruct (dict_get_default cd "fields" (YList [])); try done;
      by exists TypeError.
Qed.


(** X18. The resolver is not protected against exceptions: when a stored
    document makes it raise, a full run over files with distinct paths that
    include the document's file does not return a verdict, and [main] ends
    with status 1, whatever diagnostics were or were not recorded. *)
Theorem resolver_exception_aborts_run t f data :
  NoDup (map path (target_files t)) ->
  f ∈ target_files t ->
  content f = Parsed (YMap data) ->
  aborts (path f, data) ->
  (exists e, fst (validate_all t false false init) = Raise e) ∧
  fst (main t false false) = 1.
Proof.
  intros Hnodup Hin Hc Habort.
  assert (forall p, t ≠ TargetMissing p) as Ht by (intros p ->; inversion Hin).
  assert (exists e, fst (validate_all t false false init) = Raise e) as [e He].
  { unfold validate_all. simpl.
    rewrite (bind_ok _ _ _ _ _ (total_run _ init (validate_syntax_total t))).
    rewrite validate_syntax_files by done.
    set (st1 := snd (for_each (target_files t) _validate_file init)).
    assert (all_files st1 = omap document (target_files t)) as Hdocs.
    { unfold st1. rewrite syntax_stage_all_files; [done|done|].
      intros g _. by intros ?%elem_of_nil. }
    destruct (for_each_aborts (all_files st1) (path f, data)) with (st := st1)
      as [e He]; [|done|].
    { rewrite Hdocs. apply list_elem_of_omap. exists f. split; [done|].
      unfold document. by rewrite Hc. }
    exists e. unfold bind at 1. rewrite cross_file_references_run.
    by destruct (for_each (all_files st1) cross_check st1) as [[[]|e'] st2];
      simpl in *; [|congruence]. }
  split; [by exists e|]. unfold main.
  destruct (validate_all t false false init) as [[b|e'] st]; simpl in *; done.
Qed.

Lemma resolver_exception_witness :
  let t := AllFiles [contact_schema; blank_fields_layout] in
  (exists e, fst (validate_all t false false init) = Raise e) ∧
  fst (main t false false) = 1.
Proof.
  intros t.
  refine (resolver_exception_aborts_run t blank_fields_layout _ _ _ _ _).
  - apply (bool_decide_unpack _). vm_compute. reflexivity.
  - simpl. right. left.
  - reflexivity.
  - intros st.
    refine (proj2 (layout_raises "contact_layout.ps" _ st _) _ _ _ _);
      reflexivity.
Defined.

(** X19. Two shapes of layout that make the resolver raise: a [components]
    key that holds a value that cannot be iterated (null, a number, a
    boolean), and a component mapping, reached without an earlier
    exception, whose [fields] key holds such a value. In both cases the
    exception is [TypeError]. *)
Theorem layout_not_iterable_raises p data st :
  eq_str (dict_get data "type") "layout" = true ->
  (non_iterable (dict_get_default data "components" (YList [])) = true ->
   exists e, fst (cross_check (p, data) st) = Raise e) ∧
  (forall cd rest,
     dict_get_default data "components" (YList []) = YList (YMap cd :: rest) ->
     non_iterable (dict_get_default cd "fields" (YList [])) = true ->
     exists e, fst (cross_check (p, data) st) = Raise e).
Proof. apply layout_raises. Qed.

Lemma layout_not_iterable_witness :
  exists e,
    fst (cross_check ("contact_layout.ps",
           [(KStr "type", YStr "layout"); (KStr "name", YStr "contact");
            (KStr "components", YNull)]) init) = Raise e.
Proof.
  refine (proj1 (layout_not_iterable_raises "contact_layout.ps" _ init _) _);
    reflexivity.
Defined.

(** ** A field entry that aborts a schema *)





(** ** Files the loader turns away *)

(** X21. A file that cannot be read gets a [file_error], and a file whose
    content parses to anything but a mapping (an empty file, a list, a
    scalar) gets an [invalid_format]: in either case, over files with
    distinct paths, that error is the only diagnostic of the whole run
    against the file, the file is not stored, so the resolver never visits
    it and the summary does not count it, and the other files are
    validated as usual. *)
Theorem unreadable_or_not_a_mapping t syntax_only f :
  NoDup (map path (target_files t)) ->
  f ∈ target_files t ->
  let st := snd (validate_all t syntax_only false init) in
  (content f = ReadError ->
   about (path f) (diagnostics st) = [error_diag (path f) "file_error"] ∧
   path f ∉ stored_paths st) ∧
  (forall v, content f = Parsed v -> is_dict v = false ->
   about (path f) (diagnostics st) = [error_diag (path f) "invalid_format"] ∧
   path f ∉ stored_paths st).
Proof.
  intros Hnodup Hin st. split.
  - intros Hc. apply rejected_file_isolated; try done.
    intros st0. unfold _validate_file, validate_file_body, try_except.
    by rewrite Hc.
  - intros v Hc Hv. apply rejected_file_isolated; try done.
    intros st0. unfold _validate_file, validate_file_body, try_except.
    rewrite Hc. by destruct v.
Qed.

Lemma not_a_mapping_witness :
  let t := AllFiles [contact_schema; mkFile "empty.ps" (Parsed YNull)] in
  let st := snd (validate_all t false false init) in
  about "empty.ps" (diagnostics st) = [error_diag "empty.ps" "invalid_format"] ∧
  "empty.ps" ∉ stored_paths st.
Proof.
  intros t st.
  refine (proj2 (unreadable_or_not_a_mapping t false
                   (mkFile "empty.ps" (Parsed YNull)) _ _) YNull _ _).
  - apply (bool_decide_unpack _). vm_compute. reflexivity.
  - simpl. right. left.
  - reflexivity.
  - reflexivity.
Defined.

(** ** Field types of a schema *)










(** ** The other checks of phase 1 *)





(** X25. [_validate_form] never raises and records [invalid_fields] once
    exactly when [fields] is present with a value that is not a sequence;
    the resolver is not kept from such a form, and raises on it when the
    value cannot be iterated (null, a number, a boolean). *)
Theorem form_fields_check p data st :
  fst (_validate_form p data st) = Ok tt ∧
  of_type "invalid_fields" (emitted (_validate_form p data) st)
  = (if is_list (dict_get_default data "fields" (YList [])) then []
     else [error_diag p "invalid_fields"]) ∧
  (eq_str (dict_get data "type") "form" = true ->
   non_iterable (dict_get_default data "fields" (YList [])) = true ->
   exists e, fst (cross_check (p, data) st) = Raise e).
Proof.
  split; [|split].
  - unfold _validate_form.
    destruct (check_required_exact p data
                ["name"; "title"; "target_object"; "fields"] st)
      as (es & Hreq & _).
    rewrite (bind_ok _ _ _ _ _ Hreq). unfold when.
    by destruct (negb (is_list (dict_get_default data "fields" (YList [])))).
  - unfold emitted, _validate_form.
    destruct (check_required_exact p data
                ["name"; "title"; "target_object"; "fields"] st)
      as (es & Hreq & Hes).
    rewrite (bind_ok _ _ _ _ _ Hreq).
    assert (of_type "invalid_fields" es = []) as Hquiet.
    { apply of_type_none. eapply Forall_impl; [exact Hes|]. by intros e ->. }
    unfold when.
    destruct (is_list (dict_get_default data "fields" (YList []))); simpl;
      (erewrite emitted_between_app;
        [| simpl; rewrite <- ?app_assoc; reflexivity
         | simpl; symmetry; apply app_nil_r]);
      rewrite ?app_nil_r, ?of_type_app, ?Hquiet; reflexivity.
  - intros Hty Hnot. apply eq_str_eq in Hty. unfold cross_check.
    rewrite Hty. simpl. unfold _validate_form_references. unfold bind at 1.
    destruct (when (truthy (dict_get data "target_object")) _ st)
      as [[[]|e] st1]; simpl; [|by exists e].
    destruct (dict_get_default data "fields" (YList [])); try done;
      by exists TypeError.
Qed.

Lemma form_fields_witness :
  let data := [(KStr "type", YStr "form"); (KStr "name", YStr "signup");
               (KStr "title", YStr "Sign up"); (KStr "target_object", YStr "lead");
               (KStr "fields", YNull)] in
  exists e, fst (cross_check ("signup.ps", data) init) = Raise e.
Proof.
  intros data.
  refine (proj2 (proj2 (form_fields_check "signup.ps" data init)) _ _);
    reflexivity.
Defined.

(** *** Components of a layout *)





